(** * The conversion queue hook ([useConversionQueue.ts])

    A shallow embedding of the batch conversion queue of the browser media
    converter, and the properties of its scheduler, cancellation and
    statistics.

    Modelling conventions.
    - [setQueue updater] queues [updater]; React applies the queued updaters
      in order before it renders again.  Between two events of a run all of
      them have been applied, so the model applies [updater] when it is
      queued and records the state it commits in [trace] (a ghost log,
      newest first).
    - What [startQueue] can see of that delay is the variable [nextJob],
      which its selection updater assigns.  React calls an updater inside
      [setQueue] only when no update is pending on the hook; the selection
      is then [eager] and [nextJob] is assigned when the loop tests it.
      Otherwise [nextJob] is still undefined at the test, the loop is left
      and the updater runs with the other pending ones.  A pass that follows
      an engine call comes right after [updateJob] and the reset of
      [activeJob], so its selection is never eager; for the first pass of a
      call of [startQueue] both cases occur, and the case is part of the
      event.
    - An [async] function runs without interruption up to an [await] on
      outside work: [startQueue] up to [await convertService(...)],
      [cancelJob] up to [await cancelService(jobId)].  A function suspended
      there is an entry of [loops] or [cancels]; it resumes on an engine
      event.  An [await] on a promise that is already settled is not a
      scheduling point.
    - [new Date()] is the time [now] of the event being handled.
    - [progress] holds the integer [Math.round(progress * 100)] the callback
      computes, a number from 0 to 100.  [statistics] takes its mean over
      the integers; for progress values from 0 to 100 that is what the
      floating-point sum and quotient of the code give, and nothing is
      stated outside that range.
    - [engineCalls] is a ghost log of the jobs handed to [convertService].
    - The conversion service ([conversionService.ts]) and the naming of
      output files ([downloadService.ts]) are pure functions of what the
      calls into mediabunny do, given as an [EngineRun]; strings are
      sequences of bytes. *)

From Stdlib Require Import List String Ascii ZArith Bool Lia Arith.
Import ListNotations.
Local Open Scope string_scope.
Local Open Scope list_scope.

(** ** Data model ([conversion.types.ts]) *)

Inductive ConversionStatus : Type :=
| queued | initializing | converting | finalizing
| completed | failed | cancelled.

Definition status_eqb (a b : ConversionStatus) : bool :=
  match a, b with
  | queued, queued | initializing, initializing | converting, converting
  | finalizing, finalizing | completed, completed | failed, failed
  | cancelled, cancelled => true
  | _, _ => false
  end.

Inductive ConversionErrorType : Type :=
| VALIDATION_ERROR | UNSUPPORTED_FORMAT | BROWSER_NOT_SUPPORTED | INVALID_FILE
| OUT_OF_MEMORY | MEDIABUNNY_ERROR | CANCELLED | UNKNOWN_ERROR.

(** JavaScript [Error] values: a plain [new Error(message)] or the class
    [ConversionError]. *)
Inductive JsError : Type :=
| PlainError (message : string)
| ConversionError (type : ConversionErrorType) (userMessage : string).

(** What a [catch] clause can receive: an [Error], or any other value. *)
Inductive Thrown : Type :=
| ThrownError (e : JsError)
| ThrownOther.

Record ConversionResult : Type := mkResult {
  blob : N;                 (* handle of the output Blob *)
  filename : string;
  size : Z;
  url : option string
}.

(** The queue never inspects the source file, target format or quality
    profile; they are carried as opaque handles. *)
Module Job.
Record t : Type := mk {
  id : string;
  sourceFile : N;
  targetFormat : N;
  qualityProfile : N;
  status : ConversionStatus;
  progress : Z;
  error : option JsError;
  result : option ConversionResult;
  startedAt : option Z;
  completedAt : option Z;
  estimatedDuration : option Z
}.
End Job.
Definition ConversionJob : Type := Job.t.

(** [Partial<ConversionJob>]: each field present or not. *)
Record Partial : Type := mkPartial {
  u_id : option string;
  u_sourceFile : option N;
  u_targetFormat : option N;
  u_qualityProfile : option N;
  u_status : option ConversionStatus;
  u_progress : option Z;
  u_error : option (option JsError);
  u_result : option (option ConversionResult);
  u_startedAt : option (option Z);
  u_completedAt : option (option Z);
  u_estimatedDuration : option (option Z)
}.

Definition orElse {A : Type} (o : option A) (d : A) : A :=
  match o with Some v => v | None => d end.

(** [{ ...j, ...updates }] *)
Definition merge (j : ConversionJob) (u : Partial) : ConversionJob :=
  Job.mk (orElse (u_id u) (Job.id j))
         (orElse (u_sourceFile u) (Job.sourceFile j))
         (orElse (u_targetFormat u) (Job.targetFormat j))
         (orElse (u_qualityProfile u) (Job.qualityProfile j))
         (orElse (u_status u) (Job.status j))
         (orElse (u_progress u) (Job.progress j))
         (orElse (u_error u) (Job.error j))
         (orElse (u_result u) (Job.result j))
         (orElse (u_startedAt u) (Job.startedAt j))
         (orElse (u_completedAt u) (Job.completedAt j))
         (orElse (u_estimatedDuration u) (Job.estimatedDuration j)).

Record ConversionQueue : Type := mkQueue {
  jobs : list ConversionJob;
  activeJob : option ConversionJob;
  maxConcurrent : Z
}.

Record QueueStatistics : Type := mkStatistics {
  totalJobs : nat;
  completedCount : nat;
  failedCount : nat;
  queuedCount : nat;
  activeCount : nat;
  overallProgress : Z;
  isProcessing : bool;
  isComplete : bool
}.

(** ** The hook's state *)

(** A [cancelJob] call suspended at [await cancelService(jobId)].  When the
    call was made by [cancelAll], [ct_cont] holds the render snapshot and the
    jobs [cancelAll] still has to visit. *)
Record CancelTask : Type := mkCancelTask {
  ct_jobId : string;
  ct_cont : option (list ConversionJob * list ConversionJob)
}.

Record Hook : Type := mkHook {
  queue : ConversionQueue;           (* useState *)
  processingRef : bool;              (* useRef(false) *)
  autoStartRef : bool;               (* useRef(false) *)
  loops : list ConversionJob;        (* startQueue calls awaiting the engine, each with its nextJob *)
  cancels : list CancelTask;         (* cancelJob calls awaiting cancelService *)
  engineCalls : list ConversionJob;  (* ghost: jobs passed to convertService, oldest first *)
  trace : list ConversionQueue       (* ghost: states committed by setQueue, newest first *)
}.

Definition initialQueue : ConversionQueue := mkQueue [] None 1.

Definition initialHook : Hook := mkHook initialQueue false false [] [] [] [].

Definition setProcessing (b : bool) (h : Hook) : Hook :=
  mkHook (queue h) b (autoStartRef h) (loops h) (cancels h) (engineCalls h) (trace h).

Definition setAutoStart (b : bool) (h : Hook) : Hook :=
  mkHook (queue h) (processingRef h) b (loops h) (cancels h) (engineCalls h) (trace h).

Definition setLoops (l : list ConversionJob) (h : Hook) : Hook :=
  mkHook (queue h) (processingRef h) (autoStartRef h) l (cancels h) (engineCalls h) (trace h).

Definition setCancels (c : list CancelTask) (h : Hook) : Hook :=
  mkHook (queue h) (processingRef h) (autoStartRef h) (loops h) c (engineCalls h) (trace h).

(** [await convertService({...nextJob...})]: the engine is invoked and the
    loop is suspended until the promise settles. *)
Definition awaitEngine (nextJob : ConversionJob) (h : Hook) : Hook :=
  mkHook (queue h) (processingRef h) (autoStartRef h) (loops h ++ [nextJob])
         (cancels h) (engineCalls h ++ [nextJob]) (trace h).

Definition setQueue (updater : ConversionQueue -> ConversionQueue) (h : Hook) : Hook :=
  let q := updater (queue h) in
  mkHook q (processingRef h) (autoStartRef h) (loops h) (cancels h)
         (engineCalls h) (q :: trace h).

(** ** Job store operations *)

Definition addJob (job : ConversionJob) : Hook -> Hook :=
  setQueue (fun prev =>
    mkQueue (jobs prev ++ [job]) (activeJob prev) (maxConcurrent prev)).

Definition addJobs (js : list ConversionJob) (autoStart : bool) (h : Hook) : Hook :=
  setQueue (fun prev =>
    mkQueue (jobs prev ++ js) (activeJob prev) (maxConcurrent prev))
    (setAutoStart autoStart h).

(** [prev.activeJob?.id === jobId] *)
Definition activeIs (jobId : string) (a : option ConversionJob) : bool :=
  match a with
  | Some j => String.eqb (Job.id j) jobId
  | None => false
  end.

Definition removeJob (jobId : string) : Hook -> Hook :=
  setQueue (fun prev =>
    mkQueue (filter (fun j => negb (String.eqb (Job.id j) jobId)) (jobs prev))
            (if activeIs jobId (activeJob prev) then None else activeJob prev)
            (maxConcurrent prev)).

(** [l.map(j => (j.id === jobId ? { ...j, ...updates } : j))] *)
Definition updateIn (jobId : string) (updates : Partial) (l : list ConversionJob)
  : list ConversionJob :=
  map (fun j => if String.eqb (Job.id j) jobId then merge j updates else j) l.

Definition updateQueue (jobId : string) (updates : Partial) (prev : ConversionQueue)
  : ConversionQueue :=
  mkQueue (updateIn jobId updates (jobs prev))
          (match activeJob prev with
           | Some a => if String.eqb (Job.id a) jobId then Some (merge a updates)
                       else Some a
           | None => None
           end)
          (maxConcurrent prev).

Definition updateJob (jobId : string) (updates : Partial) : Hook -> Hook :=
  setQueue (updateQueue jobId updates).

Definition clearCompleted : Hook -> Hook :=
  setQueue (fun prev =>
    mkQueue (filter (fun j => negb (status_eqb (Job.status j) completed)) (jobs prev))
            (activeJob prev) (maxConcurrent prev)).

Definition clearAll (h : Hook) : Hook :=
  setProcessing false (setQueue (fun _ => mkQueue [] None 1) h).

(** ** The scheduler ([startQueue]) *)

Definition isQueued (j : ConversionJob) : bool := status_eqb (Job.status j) queued.

(** [{ ...j, status: 'initializing', startedAt: new Date() }] *)
Definition initializingAt (now : Z) : Partial :=
  mkPartial None None None None (Some initializing) None None None
            (Some (Some now)) None None.

Definition convertingUpdate : Partial :=
  mkPartial None None None None (Some converting) None None None None None None.

Definition progressUpdate (p : Z) : Partial :=
  mkPartial None None None None None (Some p) None None None None None.

Definition completedUpdate (now : Z) (r : ConversionResult) : Partial :=
  mkPartial None None None None (Some completed) (Some 100%Z) None (Some (Some r))
            None (Some (Some now)) None.

Definition failedUpdate (now : Z) (e : JsError) : Partial :=
  mkPartial None None None None (Some failed) None (Some (Some e)) None
            None (Some (Some now)) None.

(** The updater of lines 88-112: find the first queued job; when there is
    one, make it the active job and mark every record carrying its id as
    initializing. *)
Definition claimUpdater (now : Z) (prev : ConversionQueue) : ConversionQueue :=
  match find isQueued (jobs prev) with
  | None => prev
  | Some nextJob =>
      mkQueue (updateIn (Job.id nextJob) (initializingAt now) (jobs prev))
              (Some nextJob)
              (maxConcurrent prev)
  end.

(** [error instanceof Error ? error : new Error('Unknown error')] *)
Definition asError (t : Thrown) : JsError :=
  match t with
  | ThrownError e => e
  | ThrownOther => PlainError "Unknown error"
  end.

(** One pass of [while (true)], from its top to where the loop is suspended
    or left.  The selection updater is queued; [nextJob] holds the job it
    found only if React has run it by the test of line 114, that is when the
    selection is [eager].  With a job in [nextJob] the pass marks it
    converting and calls the engine; otherwise it leaves the loop and clears
    the processing flag, also when the queued updater goes on to claim a
    job. *)
Definition loopFrom (eager : bool) (now : Z) (h : Hook) : Hook :=
  let nextJob := if eager then find isQueued (jobs (queue h)) else None in
  let h1 := setQueue (claimUpdater now) h in
  match nextJob with
  | None => setProcessing false h1
  | Some nj => awaitEngine nj (updateJob (Job.id nj) convertingUpdate h1)
  end.

Definition startQueue (eager : bool) (now : Z) (h : Hook) : Hook :=
  if processingRef h then h
  else loopFrom eager now (setProcessing true h).

Definition removeNth {A : Type} (k : nat) (l : list A) : list A :=
  firstn k l ++ skipn (S k) l.

(** [setQueue(prev => ({ ...prev, activeJob: null }))] *)
Definition clearActive : Hook -> Hook :=
  setQueue (fun prev => mkQueue (jobs prev) None (maxConcurrent prev)).

(** The [k]-th suspended loop resumes: the final [updateJob] of the [try]
    or of the [catch] branch, then the active job is cleared. *)
Definition settle (k : nat) (nj : ConversionJob) (updates : Partial) (h : Hook) : Hook :=
  clearActive (updateJob (Job.id nj) updates (setLoops (removeNth k (loops h)) h)).

(** The engine reports progress to the [k]-th suspended loop. *)
Definition onProgress (k : nat) (p : Z) (h : Hook) : Hook :=
  match nth_error (loops h) k with
  | None => h
  | Some nj => updateJob (Job.id nj) (progressUpdate p) h
  end.

(** [convertService] resolves for the [k]-th suspended loop.  The pass
    that follows finds the updates of [settle] pending: its selection is not
    eager. *)
Definition onResolved (now : Z) (k : nat) (r : ConversionResult) (h : Hook) : Hook :=
  match nth_error (loops h) k with
  | None => h
  | Some nj =>
      loopFrom false now (settle k nj (completedUpdate now r) h)
  end.

(** [convertService] rejects for the [k]-th suspended loop: the [catch]
    clause. *)
Definition onRejected (now : Z) (k : nat) (t : Thrown) (h : Hook) : Hook :=
  match nth_error (loops h) k with
  | None => h
  | Some nj =>
      loopFrom false now (settle k nj (failedUpdate now (asError t)) h)
  end.

(** ** Cancellation *)

Definition cancelledUpdate (now : Z) : Partial :=
  mkPartial None None None None (Some cancelled) None
            (Some (Some (ConversionError CANCELLED "Conversion was cancelled by user.")))
            None None (Some (Some now)) None.

Definition hasId (jobId : string) (j : ConversionJob) : bool :=
  String.eqb (Job.id j) jobId.

(** [job.status === 'converting' || job.status === 'initializing'] *)
Definition needsAbort (j : ConversionJob) : bool :=
  status_eqb (Job.status j) converting || status_eqb (Job.status j) initializing.

(** [cancelJob], reading [queue.jobs] from the render [snapshot] its closure
    holds. *)
Definition cancelJob (snapshot : list ConversionJob) (now : Z) (jobId : string)
  (h : Hook) : Hook :=
  match find (hasId jobId) snapshot with
  | None => h
  | Some job =>
      if needsAbort job
      then setCancels (cancels h ++ [mkCancelTask jobId None]) h
      else updateJob jobId (cancelledUpdate now) h
  end.

(** [j.status === 'queued' || j.status === 'initializing' || j.status === 'converting'] *)
Definition toCancel (j : ConversionJob) : bool :=
  status_eqb (Job.status j) queued || status_eqb (Job.status j) initializing
  || status_eqb (Job.status j) converting.

(** The [for] loop of [cancelAll] over the jobs still to visit, then the
    reset of the processing flag. *)
Fixpoint cancelAllFrom (snapshot : list ConversionJob) (now : Z)
  (todo : list ConversionJob) (h : Hook) : Hook :=
  match todo with
  | [] => setProcessing false h
  | job :: rest =>
      match find (hasId (Job.id job)) snapshot with
      | None => cancelAllFrom snapshot now rest h
      | Some found =>
          if needsAbort found
          then setCancels
                 (cancels h ++ [mkCancelTask (Job.id job) (Some (snapshot, rest))]) h
          else cancelAllFrom snapshot now rest
                 (updateJob (Job.id job) (cancelledUpdate now) h)
      end
  end.

Definition cancelAll (snapshot : list ConversionJob) (now : Z) (h : Hook) : Hook :=
  cancelAllFrom snapshot now (filter toCancel snapshot) h.

(** [cancelService] settles (resolved, or rejected and logged) for the
    [k]-th suspended [cancelJob]. *)
Definition onCancelSettled (now : Z) (k : nat) (h : Hook) : Hook :=
  match nth_error (cancels h) k with
  | None => h
  | Some task =>
      let h1 := updateJob (ct_jobId task) (cancelledUpdate now)
                  (setCancels (removeNth k (cancels h)) h) in
      match ct_cont task with
      | None => h1
      | Some (snapshot, rest) => cancelAllFrom snapshot now rest h1
      end
  end.

(** ** Statistics *)

Definition isActiveStatus (s : ConversionStatus) : bool :=
  status_eqb s initializing || status_eqb s converting || status_eqb s finalizing.

Definition countStatus (s : ConversionStatus) (l : list ConversionJob) : nat :=
  List.length (filter (fun j => status_eqb (Job.status j) s) l).

(** [queue.jobs.reduce((sum, j) => sum + j.progress, 0)], over the integer
    progress values; exact for the values from 0 to 100 that the hook
    writes. *)
Definition sumProgress (l : list ConversionJob) : Z :=
  fold_left (fun sum j => (sum + Job.progress j)%Z) l 0%Z.

(** [Math.round(x / n)] for an integer [x] and [n > 0]: halves round up. *)
Definition roundDiv (x : Z) (n : Z) : Z := ((2 * x + n) / (2 * n))%Z.

Definition statistics (h : Hook) : QueueStatistics :=
  let js := jobs (queue h) in
  mkStatistics
    (List.length js)
    (countStatus completed js)
    (countStatus failed js)
    (countStatus queued js)
    (List.length (filter (fun j => isActiveStatus (Job.status j)) js))
    (if (0 <? List.length js)%nat then roundDiv (sumProgress js) (Z.of_nat (List.length js))
     else 0%Z)
    (processingRef h || match activeJob (queue h) with Some _ => true | None => false end)
    ((0 <? List.length js)%nat
     && forallb (fun j => status_eqb (Job.status j) completed
                          || status_eqb (Job.status j) failed) js).

(** ** The auto-start effect and the events of a run *)

(** The [useEffect] that follows a render in which [queue.jobs] changed. *)
Definition autoStartEffect (eager : bool) (now : Z) (h : Hook) : Hook :=
  if autoStartRef h && negb (processingRef h) && existsb isQueued (jobs (queue h))
  then startQueue eager now (setAutoStart false h)
  else h.

Inductive Event : Type :=
| EAddJob (job : ConversionJob)
| EAddJobs (js : list ConversionJob) (autoStart : bool)
| ERemoveJob (jobId : string)
| EStartQueue (eager : bool)
| ECancelJob (jobId : string)
| ECancelAll
| EClearCompleted
| EClearAll
| EAutoStart (eager : bool)
| EProgress (k : nat) (p : Z)
| EResolved (k : nat) (r : ConversionResult)
| ERejected (k : nat) (t : Thrown)
| ECancelSettled (k : nat).

(** One event, handled at time [now].  The caller-facing callbacks are those
    of the latest render, so [cancelJob] and [cancelAll] read the current
    job list.  A call of [startQueue], from a handler or from the auto-start
    effect, comes with the case of its selection. *)
Definition step (now : Z) (e : Event) (h : Hook) : Hook :=
  match e with
  | EAddJob job => addJob job h
  | EAddJobs js autoStart => addJobs js autoStart h
  | ERemoveJob jobId => removeJob jobId h
  | EStartQueue eager => startQueue eager now h
  | ECancelJob jobId => cancelJob (jobs (queue h)) now jobId h
  | ECancelAll => cancelAll (jobs (queue h)) now h
  | EClearCompleted => clearCompleted h
  | EClearAll => clearAll h
  | EAutoStart eager => autoStartEffect eager now h
  | EProgress k p => onProgress k p h
  | EResolved k r => onResolved now k r h
  | ERejected k t => onRejected now k t h
  | ECancelSettled k => onCancelSettled now k h
  end.

(** A run: events with their times, oldest first. *)
Fixpoint run (evs : list (Z * Event)) (h : Hook) : Hook :=
  match evs with
  | [] => h
  | (now, e) :: rest => run rest (step now e h)
  end.

(** A job as the application submits it: queued, nothing recorded yet. *)
Definition freshJob (jobId : string) : ConversionJob :=
  Job.mk jobId 0 0 0 queued 0 None None None None None.

Definition statusOf (jobId : string) (q : ConversionQueue) : option ConversionStatus :=
  option_map Job.status (find (hasId jobId) (jobs q)).

Definition ids (l : list ConversionJob) : list string := map Job.id l.

(** ** The caller in [App.tsx] *)

(** [queue.jobs.filter(j => j.status === 'completed' && j.result)] *)
Definition zipSelection (l : list ConversionJob) : list ConversionJob :=
  filter (fun j => status_eqb (Job.status j) completed
                   && match Job.result j with Some _ => true | None => false end) l.

(** [handleDownloadAllAsZip]: [None] when it returns without calling the
    download service, else the results it passes to [downloadAsZip]
    ([j.result!] is the field as it is). *)
Definition handleDownloadAllAsZip (h : Hook) : option (list (option ConversionResult)) :=
  let completedJobs := zipSelection (jobs (queue h)) in
  if (List.length completedJobs =? 0)%nat then None
  else Some (map Job.result completedJobs).

(** ** Output file names ([downloadService.ts]) *)

(** [[^/.]*] up to the end of the string. *)
Fixpoint noDotOrSlash (s : string) : bool :=
  match s with
  | EmptyString => true
  | String c rest =>
      negb (Ascii.eqb c "."%char) && negb (Ascii.eqb c "/"%char) && noDotOrSlash rest
  end.

(** [s.replace(/\.[^/.]+$/, '')]: the text from the leftmost position where
    the pattern matches, a dot followed up to the end by one or more
    characters other than a dot or a slash, is removed. *)
Fixpoint stripExtension (s : string) : string :=
  match s with
  | EmptyString => EmptyString
  | String c rest =>
      if Ascii.eqb c "."%char
         && negb (String.eqb rest EmptyString) && noDotOrSlash rest
      then EmptyString
      else String c (stripExtension rest)
  end.

Definition generateFilename (originalFilename targetExtension : string) : string :=
  let extension :=
    if String.prefix "." targetExtension then targetExtension
    else ("." ++ targetExtension)%string in
  let nameWithoutExt := stripExtension originalFilename in
  (nameWithoutExt ++ extension)%string.

(** ** The conversion service ([conversionService.ts]) *)

(** [s.includes(sub)] *)
Fixpoint includes (sub s : string) : bool :=
  String.prefix sub s
  || match s with
     | EmptyString => false
     | String _ rest => includes sub rest
     end.

(** [error instanceof Error ? error.message : 'Unknown conversion error'];
    a [ConversionError] passes its user message to [super]. *)
Definition messageOf (t : Thrown) : string :=
  match t with
  | ThrownError (PlainError message) => message
  | ThrownError (ConversionError _ userMessage) => userMessage
  | ThrownOther => "Unknown conversion error"
  end.

(** The type that the [catch] clause of [convert] gives to a message. *)
Definition classify (message : string) : ConversionErrorType :=
  if includes "codec" message || includes "format" message then UNSUPPORTED_FORMAT
  else if includes "memory" message || includes "allocation" message then OUT_OF_MEMORY
  else MEDIABUNNY_ERROR.

(** The [catch] clause of [convert]: the error it throws for what it
    caught.  The [originalError] it attaches is not modelled; nothing reads
    it. *)
Definition convertCatch (t : Thrown) : JsError :=
  match t with
  | ThrownError (ConversionError type userMessage) => ConversionError type userMessage
  | _ => ConversionError (classify (messageOf t)) (messageOf t)
  end.

Inductive OutputFormatClass : Type :=
| Mp4OutputFormat | MovOutputFormat | WebMOutputFormat | MkvOutputFormat
| WavOutputFormat | Mp3OutputFormat | OggOutputFormat | AdtsOutputFormat
| FlacOutputFormat.

Definition getOutputFormatClass (formatType : string) : OutputFormatClass + JsError :=
  if String.eqb formatType "mp4" then inl Mp4OutputFormat
  else if String.eqb formatType "mov" then inl MovOutputFormat
  else if String.eqb formatType "webm" then inl WebMOutputFormat
  else if String.eqb formatType "mkv" then inl MkvOutputFormat
  else if String.eqb formatType "wav" then inl WavOutputFormat
  else if String.eqb formatType "mp3" then inl Mp3OutputFormat
  else if String.eqb formatType "ogg" then inl OggOutputFormat
  else if String.eqb formatType "aac" then inl AdtsOutputFormat
  else if String.eqb formatType "flac" then inl FlacOutputFormat
  else inr (PlainError ("Unsupported output format: " ++ formatType)%string).

(** The fields of [config] that [convert] reads itself. *)
Record ConversionConfig : Type := mkConfig {
  sourceId : string;          (* sourceFile.id *)
  sourceName : string;        (* sourceFile.name *)
  targetFormatType : string;  (* targetFormat.format *)
  targetExtension : string    (* targetFormat.extension *)
}.

(** What the calls into mediabunny do in one call of [convert]: the input
    objects cannot be built; the output, the track configurations or
    [Conversion.init] fail; [execute] fails; or [execute] returns and the
    target holds a buffer of [byteLength] bytes, or none. *)
Inductive EngineRun : Type :=
| InputThrows (t : Thrown)
| InitThrows (t : Thrown)
| ExecuteThrows (t : Thrown)
| Executed (byteLength : option N) (outputBlob : N).

(** [activeConversions]: the [Map] from ids to running conversions, as an
    association list with one entry per key.  The service never iterates
    over it, so the order of the entries is not observable. *)
Definition Conversions : Type := list (string * N).

Definition mapGet (k : string) (m : Conversions) : option N :=
  option_map snd (find (fun e => String.eqb (fst e) k) m).

Definition mapDelete (k : string) (m : Conversions) : Conversions :=
  filter (fun e => negb (String.eqb (fst e) k)) m.

Definition mapSet (k : string) (v : N) (m : Conversions) : Conversions :=
  (k, v) :: mapDelete k m.

Definition emptyOutput : JsError :=
  ConversionError MEDIABUNNY_ERROR "Conversion produced an empty output file.".

(** [convert]: the new content of [activeConversions], and the result the
    promise resolves with or the error it rejects with.  [conversion] is the
    object that [Conversion.init] returns. *)
Definition convert (config : ConversionConfig) (conversion : N) (engine : EngineRun)
  (active : Conversions) : Conversions * (ConversionResult + JsError) :=
  match engine with
  | InputThrows t => (active, inr (convertCatch t))
  | _ =>
      match getOutputFormatClass (targetFormatType config) with
      | inr e => (active, inr (convertCatch (ThrownError e)))
      | inl _ =>
          match engine with
          | InputThrows t | InitThrows t => (active, inr (convertCatch t))
          | ExecuteThrows t =>
              (mapSet (sourceId config) conversion active, inr (convertCatch t))
          | Executed buffer outputBlob =>
              let active' :=
                mapDelete (sourceId config)
                          (mapSet (sourceId config) conversion active) in
              match buffer with
              | None | Some 0%N =>
                  (active', inr (convertCatch (ThrownError emptyOutput)))
              | Some byteLength =>
                  (active',
                   inl (mkResult outputBlob
                                 (generateFilename (sourceName config)
                                                   (targetExtension config))
                                 (Z.of_N byteLength) None))
              end
          end
      end
  end.

(** [cancel]: only the entry is dropped; the conversion is not told. *)
Definition cancel (jobId : string) (active : Conversions) : Conversions :=
  match mapGet jobId active with
  | Some _ => mapDelete jobId active
  | None => active
  end.

(** * Notions used in the statements *)

(** ** Sample states and runs *)

Definition demoResult : ConversionResult := mkResult 7 "a.mp4" 10 None.


(** One job submitted, nothing started. *)
Definition oneJobQueued : Hook := addJob (freshJob "a") initialHook.

(** One job submitted, handed to the engine by a start whose selection is
    eager, and completed. *)
Definition completedHook : Hook :=
  run [(1, EAddJob (freshJob "a")); (2, EStartQueue true); (3, EResolved 0 demoResult)]%Z
      initialHook.

(** Two jobs submitted, the first one handed to the engine. *)
Definition twoJobsStarted : Hook :=
  run [(1, EAddJobs [freshJob "a"; freshJob "b"] false); (2, EStartQueue true)]%Z
      initialHook.

(** Three jobs submitted and [startQueue] called twice in a row; then the
    engine call, if one was made, resolves. *)
Definition startedTwice (first second : bool) : Hook :=
  run [(1, EAddJobs [freshJob "a"; freshJob "b"; freshJob "c"] false);
       (2, EStartQueue first); (2, EStartQueue second);
       (3, EResolved 0 demoResult)]%Z
      initialHook.

(** Two jobs submitted and [startQueue] called twice, the first call with
    the submission still pending. *)
Definition restartedWhilePending (second : bool) : Hook :=
  run [(1, EAddJobs [freshJob "a"; freshJob "b"] false);
       (2, EStartQueue false); (3, EStartQueue second)]%Z
      initialHook.

(** Three jobs submitted, the first converted; [startQueue] is called again
    after it has completed. *)
Definition restartedAfterCompletion (second : bool) : Hook :=
  run [(1, EAddJobs [freshJob "a"; freshJob "b"; freshJob "c"] false);
       (2, EStartQueue true); (3, EResolved 0 demoResult);
       (4, EStartQueue second)]%Z
      initialHook.

(** Two jobs submitted, the first handed to the engine, which fails on
    it. *)
Definition failedFirst : Hook :=
  run [(1, EAddJobs [freshJob "a"; freshJob "b"] false); (2, EStartQueue true);
       (3, ERejected 0 (ThrownError (PlainError "decode failed")))]%Z
      initialHook.


(** The queue is cancelled while a conversion is under way, two more jobs are
    submitted and the queue is started again; then the first conversion
    resolves. *)
Definition cancelAllRestartRun : Hook :=
  run [(1, EAddJobs [freshJob "a"; freshJob "b"] false); (2, EStartQueue true);
       (3, ECancelAll); (4, ECancelSettled 0);
       (5, EAddJobs [freshJob "c"; freshJob "d"] false); (6, EStartQueue true);
       (7, EResolved 0 demoResult)]%Z
      initialHook.

(** ** The records and states an operation commits *)

(** What [updateJob(jobId, { status: 'cancelled', error, completedAt })]
    makes of a record. *)
Definition cancelledRecord (now : Z) (j : ConversionJob) : ConversionJob :=
  Job.mk (Job.id j) (Job.sourceFile j) (Job.targetFormat j) (Job.qualityProfile j)
         cancelled (Job.progress j)
         (Some (ConversionError CANCELLED "Conversion was cancelled by user."))
         (Job.result j) (Job.startedAt j) (Some now) (Job.estimatedDuration j).

(** The state committed by the selection updater, and the one committed by
    [updateJob(nextJob.id, { status: 'converting' })] after it. *)
Definition claimedQueue (now : Z) (nj : ConversionJob) (q : ConversionQueue)
  : ConversionQueue :=
  mkQueue (updateIn (Job.id nj) (initializingAt now) (jobs q)) (Some nj) (maxConcurrent q).

Definition convertingQueue (now : Z) (nj : ConversionJob) (q : ConversionQueue)
  : ConversionQueue :=
  updateQueue (Job.id nj) convertingUpdate (claimedQueue now nj q).

(** ** Runs and what they keep *)

(** The updates that the handlers pass to [updateJob] once a job has been
    claimed. *)
Inductive HookUpdate : Partial -> Prop :=
| hu_progress (p : Z) : HookUpdate (progressUpdate p)
| hu_completed (now : Z) (r : ConversionResult) : HookUpdate (completedUpdate now r)
| hu_failed (now : Z) (e : JsError) : HookUpdate (failedUpdate now e)
| hu_cancelled (now : Z) : HookUpdate (cancelledUpdate now).

(** An event is admitted when the jobs it submits, if any, are acceptable
    for the current job list. *)
Definition admits (okAdd : list ConversionJob -> list ConversionJob -> Prop)
  (h : Hook) (e : Event) : Prop :=
  match e with
  | EAddJob job => okAdd (jobs (queue h)) [job]
  | EAddJobs js _ => okAdd (jobs (queue h)) js
  | _ => True
  end.

(** States reached from the initial hook by events that [ok] admits. *)
Inductive reachable (ok : Hook -> Event -> Prop) : Hook -> Prop :=
| reachable_initial : reachable ok initialHook
| reachable_step (now : Z) (e : Event) (h : Hook) :
    reachable ok h -> ok h e -> reachable ok (step now e h).

(** [P] holds of the current job list and of every committed one. *)
Definition everywhere (P : list ConversionJob -> Prop) (h : Hook) : Prop :=
  P (jobs (queue h)) /\ Forall (fun q => P (jobs q)) (trace h).

(** ** Properties of job lists and hook states *)



Definition nonTerminal (s : ConversionStatus) : bool :=
  match s with
  | queued | initializing | converting | finalizing => true
  | completed | failed | cancelled => false
  end.

(** No record that is still to settle carries an error or a result. *)
Definition clean (l : list ConversionJob) : Prop :=
  forall j, In j l -> nonTerminal (Job.status j) = true ->
            Job.error j = None /\ Job.result j = None.

Definition tidy (l : list ConversionJob) : Prop := NoDup (ids l) /\ clean l.

(** A job as the application builds it for submission. *)
Definition Submitted (j : ConversionJob) : Prop :=
  Job.status j = queued /\ Job.error j = None /\ Job.result j = None.

(** Submissions of such jobs under ids that are new and distinct. *)
Definition freshSubmission (l js : list ConversionJob) : Prop :=
  Forall Submitted js /\ NoDup (ids (l ++ js)).

(** ** Order of the claims *)




(** ** The path of a job through the committed states *)





(** ** Engine calls of a run *)

(** The calls of [startQueue] in a run whose selection is eager. *)
Definition startsEngine (e : Event) : nat :=
  match e with
  | EStartQueue true | EAutoStart true => 1
  | _ => 0
  end.

Fixpoint eagerStarts (evs : list (Z * Event)) : nat :=
  match evs with
  | [] => 0
  | (_, e) :: rest => startsEngine e + eagerStarts rest
  end.

(** ** What [cancelAll] has to wait for *)

(** The jobs of [todo] for which [cancelJob] awaits [cancelService]: those
    found converting or initializing in the snapshot. *)
Definition awaitsAbort (snapshot : list ConversionJob) (job : ConversionJob) : bool :=
  match find (hasId (Job.id job)) snapshot with
  | Some found => needsAbort found
  | None => false
  end.

(** The acknowledgements of [cancelService] at the given times, each for
    the [cancelJob] call suspended at position [k]. *)
Definition acknowledgements (k : nat) (times : list Z) : list (Z * Event) :=
  map (fun t => (t, ECancelSettled k)) times.

Definition cancellationError : JsError :=
  ConversionError CANCELLED "Conversion was cancelled by user.".

(** The state in which a run of [cancelAll] ends, against the state [h] in
    which its remaining jobs [todo] were still to visit. *)
Record CancelledAll (todo : list ConversionJob) (h hf : Hook) : Prop := mkCancelledAll {
  ca_flag : processingRef hf = false;
  ca_loops : loops hf = loops h;
  ca_calls : engineCalls hf = engineCalls h;
  ca_cancels : cancels hf = cancels h;
  ca_ids : ids (jobs (queue hf)) = ids (jobs (queue h));
  ca_done : forall j', In j' (jobs (queue hf)) -> In (Job.id j') (ids todo) ->
                       Job.status j' = cancelled
                       /\ Job.error j' = Some cancellationError
                       /\ Job.completedAt j' <> None;
  ca_frame : forall j, ~ In (Job.id j) (ids todo) ->
                       (In j (jobs (queue hf)) <-> In j (jobs (queue h)))
}.

(** [cancelAll] called at [now], then the acknowledgements of its
    [cancelService] calls at [times], with no other event in between. *)
Definition cancelAllAcknowledged (now : Z) (times : list Z) (h : Hook) : Hook :=
  run (acknowledgements (List.length (cancels h)) times) (step now ECancelAll h).

(** ** Stamps of a record *)

(** What the handlers leave on a record with each status: the claim stamps
    [startedAt]; completion, failure and cancellation stamp [completedAt]
    and attach the result or the error. *)
Definition stamped (j : ConversionJob) : Prop :=
  match Job.status j with
  | queued => True
  | initializing | converting | finalizing => Job.startedAt j <> None
  | completed => Job.result j <> None /\ Job.completedAt j <> None
  | failed => Job.error j <> None /\ Job.completedAt j <> None
  | cancelled => Job.error j = Some cancellationError /\ Job.completedAt j <> None
  end.

(** Submissions of queued jobs, as [App.tsx] builds them. *)
Definition submitsQueued (l js : list ConversionJob) : Prop :=
  Forall (fun j => Job.status j = queued) js.

(** ** Jobs that have left the queued state *)

(** No record carrying the id [i] is queued. *)
Definition notQueued (i : string) (l : list ConversionJob) : Prop :=
  forall j, In j l -> Job.id j = i -> Job.status j <> queued.

(** The event submits no job under the id [i]. *)
Definition noSubmissionOf (i : string) (e : Event) : Prop :=
  match e with
  | EAddJob job => Job.id job <> i
  | EAddJobs js _ => ~ In i (ids js)
  | _ => True
  end.

(** ** Formats *)

(** The labels of the [switch] in [getOutputFormatClass]. *)
Definition knownFormats : list string :=
  ["mp4"; "mov"; "webm"; "mkv"; "wav"; "mp3"; "ogg"; "aac"; "flac"].

(** * Basic facts *)

Lemma status_eqb_eq (a b : ConversionStatus) : status_eqb a b = true <-> a = b.
Proof. destruct a, b; simpl; split; intro H; try reflexivity; discriminate H. Qed.

Lemma status_eqb_refl (a : ConversionStatus) : status_eqb a a = true.
Proof. destruct a; reflexivity. Qed.

Lemma status_eqb_neq (a b : ConversionStatus) : status_eqb a b = false <-> a <> b.
Proof.
  split.
  - intros H E. subst. rewrite status_eqb_refl in H. discriminate.
  - intro H. destruct (status_eqb a b) eqn:E; [| reflexivity].
    apply status_eqb_eq in E. contradiction.
Qed.


Lemma filter_all_false {A : Type} (f : A -> bool) (l : list A) :
  Forall (fun y => f y = false) l -> filter f l = [].
Proof.
  induction 1 as [| a l Ha _ IH]; simpl; [reflexivity |]. now rewrite Ha.
Qed.

(** ** Updating the records that carry an id *)

Lemma merge_id (j : ConversionJob) (u : Partial) :
  u_id u = None -> Job.id (merge j u) = Job.id j.
Proof. intro H. simpl. now rewrite H. Qed.

Lemma updateIn_ids (i : string) (u : Partial) (l : list ConversionJob) :
  u_id u = None -> ids (updateIn i u l) = ids l.
Proof.
  intro H. unfold ids, updateIn. rewrite map_map. apply map_ext.
  intro j. destruct (String.eqb (Job.id j) i); [now apply merge_id | reflexivity].
Qed.

Lemma in_updateIn (i : string) (u : Partial) (l : list ConversionJob) (j' : ConversionJob) :
  In j' (updateIn i u l) ->
  exists j, In j l /\ ((Job.id j = i /\ j' = merge j u) \/ (Job.id j <> i /\ j' = j)).
Proof.
  unfold updateIn. rewrite in_map_iff. intros (j & E & Hj). exists j. split; [exact Hj |].
  destruct (String.eqb (Job.id j) i) eqn:Ei.
  - apply String.eqb_eq in Ei. left. auto.
  - apply String.eqb_neq in Ei. right. auto.
Qed.

Lemma in_updateIn_same (i : string) (u : Partial) (l : list ConversionJob)
  (j' : ConversionJob) :
  u_id u = None -> In j' (updateIn i u l) -> Job.id j' = i ->
  exists j, In j l /\ Job.id j = i /\ j' = merge j u.
Proof.
  intros Hu Hin Hid. destruct (in_updateIn _ _ _ _ Hin) as (j & Hj & [[E ->] | [N ->]]).
  - exists j. auto.
  - contradiction.
Qed.

Lemma in_updateIn_other (i : string) (u : Partial) (l : list ConversionJob)
  (j' : ConversionJob) :
  u_id u = None -> In j' (updateIn i u l) -> Job.id j' <> i -> In j' l.
Proof.
  intros Hu Hin Hid. destruct (in_updateIn _ _ _ _ Hin) as (j & Hj & [[E ->] | [N ->]]).
  - rewrite merge_id in Hid by exact Hu. contradiction.
  - exact Hj.
Qed.



(** * Statistics *)

Lemma forallb_terminal (js : list ConversionJob) :
  forallb (fun j => status_eqb (Job.status j) completed
                    || status_eqb (Job.status j) failed) js = true
  <-> (forall j, In j js -> Job.status j = completed \/ Job.status j = failed).
Proof.
  rewrite forallb_forall. split; intros H j Hj; specialize (H j Hj).
  - apply orb_true_iff in H. destruct H as [H | H]; apply status_eqb_eq in H; auto.
  - apply orb_true_iff. destruct H as [-> | ->]; auto.
Qed.

(** C9: [isComplete] holds exactly when the job list is not empty and every
    job is completed or failed; a job in any other status, cancelled
    included, makes it false, so a list of cancelled jobs only is never
    complete. *)
Theorem isComplete_iff_all_completed_or_failed (h : Hook) :
  (isComplete (statistics h) = true
   <-> jobs (queue h) <> []
       /\ forall j, In j (jobs (queue h)) ->
                    Job.status j = completed \/ Job.status j = failed)
  /\ (forall j, In j (jobs (queue h)) ->
        Job.status j = cancelled \/ Job.status j = queued
        \/ Job.status j = initializing \/ Job.status j = converting
        \/ Job.status j = finalizing ->
        isComplete (statistics h) = false)
  /\ (Forall (fun j => Job.status j = cancelled) (jobs (queue h)) ->
      isComplete (statistics h) = false).
Proof.
  assert (Iff : isComplete (statistics h) = true
     <-> jobs (queue h) <> []
         /\ forall j, In j (jobs (queue h)) ->
                      Job.status j = completed \/ Job.status j = failed).
  { simpl. rewrite andb_true_iff, forallb_terminal, Nat.ltb_lt.
    destruct (jobs (queue h)); simpl; split; intros [H1 H2]; split; auto;
      try lia; try congruence. }
  split; [exact Iff | split].
  - intros j Hj Hs. apply not_true_is_false. intro C.
    apply Iff in C. destruct C as [_ C]. specialize (C j Hj).
    destruct C as [C | C]; rewrite C in Hs;
      repeat (destruct Hs as [Hs | Hs]; [discriminate |]); discriminate.
  - intro Hall. apply not_true_is_false. intro C.
    apply Iff in C. destruct C as [Hne C].
    destruct (jobs (queue h)) as [| j js]; [congruence |].
    inversion Hall as [| ? ? Hj _]; subst.
    destruct (C j (or_introl eq_refl)) as [E | E]; rewrite E in Hj; discriminate.
Qed.

(** C10: [clearAll] puts the store back to its initial value and clears the
    processing flag, whatever the state before, a suspended engine call
    included (it stays suspended); the statistics read next are those of an
    empty idle queue. *)
Theorem clearAll_resets_store_and_flag (h : Hook) :
  queue (clearAll h) = mkQueue [] None 1
  /\ queue (clearAll h) = queue initialHook
  /\ processingRef (clearAll h) = false
  /\ statistics (clearAll h) = mkStatistics 0 0 0 0 0 0 false false
  /\ loops (clearAll h) = loops h.
Proof. repeat split. Qed.

(** * Submission *)

(** C5 fails on the code: a job whose id is already in the store is appended
    as a second record. *)
Lemma addJob_duplicate_id_is_appended :
  In "a" (ids (jobs (queue completedHook)))
  /\ jobs (queue (addJob (freshJob "a") completedHook)) <> jobs (queue completedHook)
  /\ ids (jobs (queue (addJob (freshJob "a") completedHook))) = ["a"; "a"]
  /\ ids (jobs (queue (addJobs [freshJob "a"] false completedHook))) = ["a"; "a"].
Proof.
  repeat split; try reflexivity.
  - simpl. auto.
  - intro E. apply (f_equal (@List.length _)) in E. vm_compute in E. discriminate.
Qed.

(** C5, as the code has it: [addJob] and [addJobs] always append what they
    are given at the end of the job list, in order, whether or not an id is
    already present; they touch nothing else of the queue and cannot fail. *)
Theorem addJob_always_appends (job : ConversionJob) (js : list ConversionJob)
  (autoStart : bool) (h : Hook) :
  jobs (queue (addJob job h)) = jobs (queue h) ++ [job]
  /\ jobs (queue (addJobs js autoStart h)) = jobs (queue h) ++ js
  /\ activeJob (queue (addJob job h)) = activeJob (queue h)
  /\ activeJob (queue (addJobs js autoStart h)) = activeJob (queue h)
  /\ List.length (jobs (queue (addJob job h))) = S (List.length (jobs (queue h)))
  /\ autoStartRef (addJobs js autoStart h) = autoStart.
Proof.
  repeat split. simpl. rewrite length_app. simpl. lia.
Qed.

(** * Cancellation of a single job *)

(** C7 fails on the code: cancelling a completed job turns it into a
    cancelled one, attaches an error and stamps [completedAt] again. *)
Lemma cancelJob_changes_completed_job :
  map Job.status (jobs (queue completedHook)) = [completed]
  /\ map Job.status (jobs (queue (step 9 (ECancelJob "a") completedHook))) = [cancelled]
  /\ map Job.error (jobs (queue completedHook)) = [None]
  /\ map Job.error (jobs (queue (step 9 (ECancelJob "a") completedHook)))
     = [Some (ConversionError CANCELLED "Conversion was cancelled by user.")]
  /\ map Job.completedAt (jobs (queue completedHook)) = [Some 3%Z]
  /\ map Job.completedAt (jobs (queue (step 9 (ECancelJob "a") completedHook)))
     = [Some 9%Z].
Proof. repeat split. Qed.

(** C7, as the code has it: [cancelJob] has no guard on terminal records.
    On a record found completed, failed or cancelled it calls no engine
    abort and rewrites every record carrying the id: status becomes
    cancelled, the cancellation error is attached and [completedAt] is
    stamped with the current time, while progress, result and the other
    fields stay.  It is a no-op only when the id is not in the list. *)
Theorem cancelJob_on_terminal_overwrites (snapshot : list ConversionJob) (now : Z)
  (jobId : string) (h : Hook) (job : ConversionJob) :
  find (hasId jobId) snapshot = Some job ->
  Job.status job = completed \/ Job.status job = failed \/ Job.status job = cancelled ->
  jobs (queue (cancelJob snapshot now jobId h))
  = map (fun j => if hasId jobId j then cancelledRecord now j else j) (jobs (queue h))
  /\ cancels (cancelJob snapshot now jobId h) = cancels h
  /\ loops (cancelJob snapshot now jobId h) = loops h
  /\ (forall other, find (hasId other) snapshot = None ->
        cancelJob snapshot now other h = h).
Proof.
  intros Hfind Hterm. unfold cancelJob. rewrite Hfind.
  assert (Hab : needsAbort job = false).
  { unfold needsAbort. destruct Hterm as [-> | [-> | ->]]; reflexivity. }
  rewrite Hab. repeat split.
  intros other Hnone. now rewrite Hnone.
Qed.

Lemma cancelJob_on_terminal_witness :
  jobs (queue (cancelJob (jobs (queue completedHook)) 9 "a" completedHook))
  = map (fun j => if hasId "a" j then cancelledRecord 9 j else j)
        (jobs (queue completedHook))
  /\ cancels (cancelJob (jobs (queue completedHook)) 9 "a" completedHook)
     = cancels completedHook
  /\ loops (cancelJob (jobs (queue completedHook)) 9 "a" completedHook)
     = loops completedHook
  /\ (forall other, find (hasId other) (jobs (queue completedHook)) = None ->
        cancelJob (jobs (queue completedHook)) 9 other completedHook = completedHook).
Proof.
  exact (cancelJob_on_terminal_overwrites (jobs (queue completedHook)) 9 "a"
           completedHook
           (Job.mk "a" 0 0 0 completed 100 None (Some demoResult) (Some 2%Z)
                   (Some 3%Z) None)
           eq_refl (or_introl eq_refl)).
Defined.

(** * The scheduler's pass *)

Lemma find_hasId_updateIn (i : string) (u : Partial) (l : list ConversionJob) (k : string) :
  u_id u = None ->
  find (hasId k) (updateIn i u l)
  = option_map (fun j => if String.eqb (Job.id j) i then merge j u else j)
               (find (hasId k) l).
Proof.
  intro Hu. induction l as [| a l IH]; simpl; [reflexivity |].
  assert (E : hasId k (if String.eqb (Job.id a) i then merge a u else a) = hasId k a).
  { unfold hasId. destruct (String.eqb (Job.id a) i); [| reflexivity].
    now rewrite merge_id. }
  rewrite E. destruct (hasId k a); [reflexivity | exact IH].
Qed.

Lemma find_hasId_present (i : string) (l : list ConversionJob) :
  In i (ids l) -> exists j, find (hasId i) l = Some j /\ Job.id j = i.
Proof.
  induction l as [| a l IH]; simpl; [contradiction |].
  unfold hasId at 1. destruct (String.eqb (Job.id a) i) eqn:E.
  - intros _. exists a. split; [reflexivity | now apply String.eqb_eq].
  - intros [H | H]; [apply String.eqb_neq in E; contradiction | auto].
Qed.

(** The status of the first record carrying [i] after an update on [i]. *)
Lemma statusOf_updateQueue (i : string) (u : Partial) (q : ConversionQueue)
  (s : ConversionStatus) :
  u_id u = None -> u_status u = Some s -> In i (ids (jobs q)) ->
  statusOf i (updateQueue i u q) = Some s.
Proof.
  intros Hu Hs Hin. unfold statusOf, updateQueue. simpl.
  rewrite find_hasId_updateIn by exact Hu.
  destruct (find_hasId_present i (jobs q) Hin) as (j & -> & Hj).
  simpl. apply String.eqb_eq in Hj. rewrite Hj. simpl. now rewrite Hs.
Qed.

Lemma find_isQueued_in (l : list ConversionJob) (nj : ConversionJob) :
  find isQueued l = Some nj -> In nj l /\ Job.status nj = queued.
Proof.
  intro H. apply find_some in H. destruct H as [Hin Hq]. split; [exact Hin |].
  now apply status_eqb_eq.
Qed.

Lemma updateIn_twice (i : string) (u v : Partial) (l : list ConversionJob) :
  u_id u = None ->
  updateIn i v (updateIn i u l)
  = map (fun j => if String.eqb (Job.id j) i then merge (merge j u) v else j) l.
Proof.
  intro Hu. unfold updateIn. rewrite map_map. apply map_ext. intro j.
  destruct (String.eqb (Job.id j) i) eqn:E.
  - rewrite merge_id by exact Hu. now rewrite E.
  - now rewrite E.
Qed.

(** The pass when nothing is queued: the loop ends, whenever the selection
    runs. *)
Lemma loopFrom_idle (eager : bool) (now : Z) (h : Hook) :
  find isQueued (jobs (queue h)) = None ->
  loopFrom eager now h
  = mkHook (queue h) false (autoStartRef h) (loops h) (cancels h) (engineCalls h)
           (queue h :: trace h).
Proof.
  intro H. unfold loopFrom, setQueue, claimUpdater. rewrite H.
  destruct eager; reflexivity.
Qed.

(** The pass with an eager selection when [nj] is the first queued job: two
    commits, then the engine call. *)
Lemma loopFrom_claims (now : Z) (h : Hook) (nj : ConversionJob) :
  find isQueued (jobs (queue h)) = Some nj ->
  loopFrom true now h
  = mkHook (convertingQueue now nj (queue h)) (processingRef h) (autoStartRef h)
           (loops h ++ [nj]) (cancels h) (engineCalls h ++ [nj])
           (convertingQueue now nj (queue h) :: claimedQueue now nj (queue h) :: trace h).
Proof.
  intro H. unfold loopFrom, setQueue, updateJob, setQueue, claimUpdater.
  rewrite H. reflexivity.
Qed.

(** The pass whose selection is still queued at the test: the loop is left
    and the flag cleared; the updater then claims [nj], for which no engine
    call is made. *)
Lemma loopFrom_deferred (now : Z) (h : Hook) (nj : ConversionJob) :
  find isQueued (jobs (queue h)) = Some nj ->
  loopFrom false now h
  = mkHook (claimedQueue now nj (queue h)) false (autoStartRef h)
           (loops h) (cancels h) (engineCalls h)
           (claimedQueue now nj (queue h) :: trace h).
Proof.
  intro H. unfold loopFrom, setQueue, claimUpdater. rewrite H. reflexivity.
Qed.

Lemma startQueue_noop (eager : bool) (now : Z) (h : Hook) :
  processingRef h = true -> startQueue eager now h = h.
Proof. intro H. unfold startQueue. now rewrite H. Qed.

Lemma statusOf_claimedQueue (now : Z) (q : ConversionQueue) (nj : ConversionJob) :
  In (Job.id nj) (ids (jobs q)) ->
  statusOf (Job.id nj) (claimedQueue now nj q) = Some initializing.
Proof.
  intro Hid. unfold statusOf, claimedQueue. cbn [jobs].
  rewrite find_hasId_updateIn by reflexivity.
  destruct (find_hasId_present _ _ Hid) as (j & -> & Hj). simpl.
  apply String.eqb_eq in Hj. now rewrite Hj.
Qed.

Lemma statusOf_convertingQueue (now : Z) (q : ConversionQueue) (nj : ConversionJob) :
  In (Job.id nj) (ids (jobs q)) ->
  statusOf (Job.id nj) (convertingQueue now nj q) = Some converting.
Proof.
  intro Hid. unfold convertingQueue. apply statusOf_updateQueue; try reflexivity.
  unfold claimedQueue. cbn [jobs]. now rewrite updateIn_ids by reflexivity.
Qed.

(** * Lists with distinct ids *)

Lemma nodup_find_hasId (l : list ConversionJob) (j : ConversionJob) :
  NoDup (ids l) -> In j l -> find (hasId (Job.id j)) l = Some j.
Proof.
  induction l as [| a l IH]; simpl; intros Hnd Hin; [contradiction |].
  inversion Hnd as [| ? ? Hnot Hnd']; subst.
  unfold hasId at 1. destruct Hin as [-> | Hin].
  - now rewrite String.eqb_refl.
  - destruct (String.eqb (Job.id a) (Job.id j)) eqn:E.
    + apply String.eqb_eq in E. exfalso. apply Hnot. rewrite E.
      now apply in_map.
    + auto.
Qed.



(** * Invariants of the job list *)

Lemma HookUpdate_keeps_id (u : Partial) : HookUpdate u -> u_id u = None.
Proof. destruct 1; reflexivity. Qed.

Section JobListInvariant.

Variable P : list ConversionJob -> Prop.
Variable okAdd : list ConversionJob -> list ConversionJob -> Prop.

Hypothesis P_nil : P [].
Hypothesis P_add : forall l js, okAdd l js -> P l -> P (l ++ js).
Hypothesis P_filter : forall f l, P l -> P (filter f l).
Hypothesis P_update : forall i u l, HookUpdate u -> P l -> P (updateIn i u l).
Hypothesis P_claim : forall now nj l,
    find isQueued l = Some nj -> P l ->
    P (updateIn (Job.id nj) (initializingAt now) l).
Hypothesis P_convert : forall now nj l,
    find isQueued l = Some nj -> P l ->
    P (updateIn (Job.id nj) convertingUpdate
                (updateIn (Job.id nj) (initializingAt now) l)).

Lemma everywhere_setQueue (f : ConversionQueue -> ConversionQueue) (h : Hook) :
  P (jobs (f (queue h))) -> everywhere P h -> everywhere P (setQueue f h).
Proof.
  intros Hf [_ Ht]. split; simpl; [exact Hf | constructor; assumption].
Qed.

Lemma everywhere_updateJob (i : string) (u : Partial) (h : Hook) :
  HookUpdate u -> everywhere P h -> everywhere P (updateJob i u h).
Proof.
  intros Hu Hh. apply everywhere_setQueue; [| exact Hh].
  apply P_update; [exact Hu | exact (proj1 Hh)].
Qed.

Lemma everywhere_loopFrom (eager : bool) (now : Z) (h : Hook) :
  everywhere P h -> everywhere P (loopFrom eager now h).
Proof.
  intros [Hq Ht]. destruct (find isQueued (jobs (queue h))) as [nj |] eqn:F.
  - destruct eager.
    + rewrite (loopFrom_claims now h nj F). split; simpl.
      * now apply P_convert.
      * constructor; [simpl; now apply P_convert |].
        constructor; [simpl; now apply P_claim | exact Ht].
    + rewrite (loopFrom_deferred now h nj F). split; simpl.
      * now apply P_claim.
      * constructor; [simpl; now apply P_claim | exact Ht].
  - rewrite (loopFrom_idle eager now h F). split; simpl; auto.
Qed.

Lemma everywhere_startQueue (eager : bool) (now : Z) (h : Hook) :
  everywhere P h -> everywhere P (startQueue eager now h).
Proof.
  intro Hh. unfold startQueue. destruct (processingRef h); [exact Hh |].
  apply everywhere_loopFrom. exact Hh.
Qed.

Lemma everywhere_settle (k : nat) (nj : ConversionJob) (u : Partial) (h : Hook) :
  HookUpdate u -> everywhere P h -> everywhere P (settle k nj u h).
Proof.
  intros Hu Hh. unfold settle, clearActive.
  apply everywhere_setQueue.
  - simpl. apply P_update; [exact Hu | exact (proj1 Hh)].
  - apply everywhere_updateJob; [exact Hu | exact Hh].
Qed.

Lemma everywhere_cancelAllFrom (snapshot : list ConversionJob) (now : Z)
  (todo : list ConversionJob) (h : Hook) :
  everywhere P h -> everywhere P (cancelAllFrom snapshot now todo h).
Proof.
  revert h. induction todo as [| job rest IH]; intros h Hh; simpl; [exact Hh |].
  destruct (find (hasId (Job.id job)) snapshot) as [found |]; [| now apply IH].
  destruct (needsAbort found); [exact Hh |].
  apply IH. apply everywhere_updateJob; [constructor | exact Hh].
Qed.

(** Every event keeps [P], on the current list and on all commits. *)
Lemma step_everywhere (now : Z) (e : Event) (h : Hook) :
  admits okAdd h e -> everywhere P h -> everywhere P (step now e h).
Proof.
  intros Hok Hh. destruct e; simpl in *.
  - apply everywhere_setQueue; [| exact Hh]. simpl.
    apply P_add; [exact Hok | exact (proj1 Hh)].
  - unfold addJobs. apply everywhere_setQueue; [| exact Hh]. simpl.
    apply P_add; [exact Hok | exact (proj1 Hh)].
  - apply everywhere_setQueue; [| exact Hh]. simpl.
    apply P_filter. exact (proj1 Hh).
  - now apply everywhere_startQueue.
  - unfold cancelJob. destruct (find (hasId jobId) (jobs (queue h))) as [job |];
      [| exact Hh].
    destruct (needsAbort job); [exact Hh |].
    apply everywhere_updateJob; [constructor | exact Hh].
  - now apply everywhere_cancelAllFrom.
  - apply everywhere_setQueue; [| exact Hh]. simpl.
    apply P_filter. exact (proj1 Hh).
  - unfold clearAll. destruct Hh as [_ Ht]. split; simpl; auto.
  - unfold autoStartEffect.
    destruct (autoStartRef h && negb (processingRef h)
              && existsb isQueued (jobs (queue h))); [| exact Hh].
    now apply everywhere_startQueue.
  - unfold onProgress. destruct (nth_error (loops h) k); [| exact Hh].
    apply everywhere_updateJob; [constructor | exact Hh].
  - unfold onResolved. destruct (nth_error (loops h) k); [| exact Hh].
    apply everywhere_loopFrom. apply everywhere_settle; [constructor | exact Hh].
  - unfold onRejected. destruct (nth_error (loops h) k); [| exact Hh].
    apply everywhere_loopFrom. apply everywhere_settle; [constructor | exact Hh].
  - unfold onCancelSettled. destruct (nth_error (cancels h) k) as [task |];
      [| exact Hh].
    assert (H1 : everywhere P (updateJob (ct_jobId task) (cancelledUpdate now)
                               (setCancels (removeNth k (cancels h)) h))).
    { apply everywhere_updateJob; [constructor | exact Hh]. }
    destruct (ct_cont task) as [[snapshot rest] |]; [| exact H1].
    now apply everywhere_cancelAllFrom.
Qed.

End JobListInvariant.

(** * Jobs are converted once *)

Section ConvertedOnce.

Variable i : string.

Lemma nq_updateIn (k : string) (u : Partial) (l : list ConversionJob) :
  u_id u = None -> u_status u <> Some queued ->
  notQueued i l -> notQueued i (updateIn k u l).
Proof.
  intros Hu Hs Hl j' Hin Hid.
  destruct (in_updateIn _ _ _ _ Hin) as (j & Hj & [[E ->] | [E ->]]); [| now apply Hl].
  rewrite merge_id in Hid by exact Hu. simpl.
  destruct (u_status u) as [s |]; simpl; [congruence | now apply Hl].
Qed.

Lemma HookUpdate_not_queued (u : Partial) : HookUpdate u -> u_status u <> Some queued.
Proof. destruct 1; discriminate. Qed.

Lemma nq_updateJob (k : string) (u : Partial) (h : Hook) :
  HookUpdate u -> notQueued i (jobs (queue h)) ->
  notQueued i (jobs (queue (updateJob k u h))).
Proof.
  intros Hu Hh. simpl. apply nq_updateIn; auto.
  - now apply HookUpdate_keeps_id.
  - now apply HookUpdate_not_queued.
Qed.

Lemma nq_loopFrom (eager : bool) (now : Z) (h : Hook) :
  notQueued i (jobs (queue h)) ->
  notQueued i (jobs (queue (loopFrom eager now h)))
  /\ filter (hasId i) (engineCalls (loopFrom eager now h))
     = filter (hasId i) (engineCalls h).
Proof.
  intro Hh. destruct (find isQueued (jobs (queue h))) as [nj |] eqn:F.
  - destruct eager.
    + rewrite (loopFrom_claims now h nj F). cbn [queue engineCalls]. split.
      * unfold convertingQueue, claimedQueue. simpl.
        apply nq_updateIn; try reflexivity; try discriminate.
        apply nq_updateIn; try reflexivity; try discriminate. exact Hh.
      * destruct (find_isQueued_in _ _ F) as [Hin Hq].
        rewrite filter_app. simpl. unfold hasId at 2.
        destruct (String.eqb (Job.id nj) i) eqn:E.
        -- apply String.eqb_eq in E. destruct (Hh nj Hin E Hq).
        -- apply app_nil_r.
    + rewrite (loopFrom_deferred now h nj F). cbn [queue engineCalls]. split.
      * unfold claimedQueue. simpl.
        apply nq_updateIn; try reflexivity; try discriminate. exact Hh.
      * reflexivity.
  - rewrite (loopFrom_idle eager now h F). split; [exact Hh | reflexivity].
Qed.

Lemma nq_settle (now : Z) (k : nat) (nj : ConversionJob) (u : Partial) (h : Hook) :
  HookUpdate u -> notQueued i (jobs (queue h)) ->
  notQueued i (jobs (queue (loopFrom false now (settle k nj u h))))
  /\ filter (hasId i) (engineCalls (loopFrom false now (settle k nj u h)))
     = filter (hasId i) (engineCalls h).
Proof.
  intros Hu Hh.
  assert (Hs : notQueued i (jobs (queue (settle k nj u h)))).
  { simpl. apply nq_updateIn; auto.
    - now apply HookUpdate_keeps_id.
    - now apply HookUpdate_not_queued. }
  destruct (nq_loopFrom false now _ Hs) as [H1 H2]. split; [exact H1 |].
  rewrite H2. reflexivity.
Qed.

Lemma nq_cancelAllFrom (snapshot : list ConversionJob) (now : Z)
  (todo : list ConversionJob) :
  forall h, notQueued i (jobs (queue h)) ->
            notQueued i (jobs (queue (cancelAllFrom snapshot now todo h)))
            /\ engineCalls (cancelAllFrom snapshot now todo h) = engineCalls h.
Proof.
  induction todo as [| job rest IH]; intros h Hh; cbn [cancelAllFrom].
  - split; [exact Hh | reflexivity].
  - destruct (find (hasId (Job.id job)) snapshot) as [found |]; [| now apply IH].
    destruct (needsAbort found); [split; [exact Hh | reflexivity] |].
    destruct (IH (updateJob (Job.id job) (cancelledUpdate now) h)) as [H1 H2].
    + apply nq_updateJob; [constructor | exact Hh].
    + split; [exact H1 | rewrite H2; reflexivity].
Qed.

Lemma nq_startQueue (eager : bool) (now : Z) (h : Hook) :
  notQueued i (jobs (queue h)) ->
  notQueued i (jobs (queue (startQueue eager now h)))
  /\ filter (hasId i) (engineCalls (startQueue eager now h))
     = filter (hasId i) (engineCalls h).
Proof.
  intro Hh. unfold startQueue. destruct (processingRef h); [auto |].
  exact (nq_loopFrom eager now (setProcessing true h) Hh).
Qed.

Lemma nq_step (now : Z) (e : Event) (h : Hook) :
  noSubmissionOf i e -> notQueued i (jobs (queue h)) ->
  notQueued i (jobs (queue (step now e h)))
  /\ filter (hasId i) (engineCalls (step now e h)) = filter (hasId i) (engineCalls h).
Proof.
  intros Hsub Hh. destruct e; cbn [step noSubmissionOf] in *.
  - split; [| reflexivity]. simpl. intros j Hin Hid.
    apply in_app_or in Hin. destruct Hin as [Hin | [<- | []]]; [now apply Hh | contradiction].
  - split; [| reflexivity]. simpl. intros j Hin Hid.
    apply in_app_or in Hin. destruct Hin as [Hin | Hin]; [now apply Hh |].
    destruct Hsub. rewrite <- Hid. now apply in_map.
  - split; [| reflexivity]. simpl. intros j Hin. apply filter_In in Hin.
    apply Hh. exact (proj1 Hin).
  - now apply nq_startQueue.
  - unfold cancelJob. destruct (find (hasId jobId) (jobs (queue h))) as [job |];
      [| auto].
    destruct (needsAbort job); [auto |].
    split; [| reflexivity]. apply nq_updateJob; [constructor | exact Hh].
  - unfold cancelAll. destruct (nq_cancelAllFrom (jobs (queue h)) now
                                  (filter toCancel (jobs (queue h))) h Hh) as [H1 H2].
    split; [exact H1 | now rewrite H2].
  - split; [| reflexivity]. simpl. intros j Hin. apply filter_In in Hin.
    apply Hh. exact (proj1 Hin).
  - split; [| reflexivity]. simpl. intros j [].
  - unfold autoStartEffect.
    destruct (autoStartRef h && negb (processingRef h)
              && existsb isQueued (jobs (queue h))); [| auto].
    exact (nq_startQueue eager now (setAutoStart false h) Hh).
  - unfold onProgress. destruct (nth_error (loops h) k) as [nj |]; [| auto].
    split; [| reflexivity]. apply nq_updateJob; [constructor | exact Hh].
  - unfold onResolved. destruct (nth_error (loops h) k) as [nj |]; [| auto].
    apply nq_settle; [constructor | exact Hh].
  - unfold onRejected. destruct (nth_error (loops h) k) as [nj |]; [| auto].
    apply nq_settle; [constructor | exact Hh].
  - unfold onCancelSettled. destruct (nth_error (cancels h) k) as [task |]; [| auto].
    set (h1 := updateJob (ct_jobId task) (cancelledUpdate now)
                 (setCancels (removeNth k (cancels h)) h)).
    assert (H1 : notQueued i (jobs (queue h1))).
    { apply nq_updateJob; [constructor | exact Hh]. }
    destruct (ct_cont task) as [[snapshot rest] |]; [| split; [exact H1 | reflexivity]].
    destruct (nq_cancelAllFrom snapshot now rest h1 H1) as [H2 H3].
    split; [exact H2 | now rewrite H3].
Qed.

Lemma nq_run (evs : list (Z * Event)) :
  forall h, Forall (fun te => noSubmissionOf i (snd te)) evs ->
            notQueued i (jobs (queue h)) ->
            notQueued i (jobs (queue (run evs h)))
            /\ filter (hasId i) (engineCalls (run evs h))
               = filter (hasId i) (engineCalls h).
Proof.
  induction evs as [| [t e] evs IH]; intros h Hev Hh; [auto |].
  inversion Hev as [| x l Hx Hl]; subst. simpl in Hx.
  destruct (nq_step t e h Hx Hh) as [H1 H2].
  destruct (IH (step t e h) Hl H1) as [H3 H4].
  simpl. split; [exact H3 | now rewrite H4].
Qed.

End ConvertedOnce.

(** X13: no handler writes the status queued.  Once no record under an id is
    queued, as after its claim by the scheduler or after a cancellation,
    the id stays out of the queued state and no job carrying it is handed
    to the engine again, whatever events follow, unless a job is submitted
    under that id.  A job claimed by the scheduler is in that situation. *)
Theorem job_is_handed_to_engine_once (i : string) (evs : list (Z * Event)) (h : Hook) :
  notQueued i (jobs (queue h)) ->
  Forall (fun te => noSubmissionOf i (snd te)) evs ->
  notQueued i (jobs (queue (run evs h)))
  /\ filter (hasId i) (engineCalls (run evs h)) = filter (hasId i) (engineCalls h)
  /\ (forall eager now h0 nj,
        find isQueued (jobs (queue h0)) = Some nj ->
        notQueued (Job.id nj) (jobs (queue (loopFrom eager now h0)))).
Proof.
  intros Hh Hev. destruct (nq_run i evs h Hev Hh) as [H1 H2].
  split; [exact H1 | split; [exact H2 |]].
  intros eager now h0 nj F.
  assert (Hc : notQueued (Job.id nj) (jobs (claimedQueue now nj (queue h0)))).
  { intros j' Hin Hid. unfold claimedQueue in Hin. cbn [jobs] in Hin.
    destruct (in_updateIn _ _ _ _ Hin) as (j & Hj & [[E ->] | [E ->]]);
      [discriminate | contradiction]. }
  destruct eager.
  - rewrite (loopFrom_claims now h0 nj F). cbn [queue].
    unfold convertingQueue, updateQueue. cbn [jobs].
    apply nq_updateIn; try reflexivity; try discriminate. exact Hc.
  - rewrite (loopFrom_deferred now h0 nj F). exact Hc.
Qed.

Lemma job_handed_once_witness :
  notQueued "b" (jobs (queue (step 3 (ECancelJob "b") twoJobsStarted)))
  /\ filter (hasId "b")
            (engineCalls (run [(4, EResolved 0 demoResult); (5, EStartQueue true);
                               (6, EAddJob (freshJob "c")); (7, EStartQueue true)]%Z
                              (step 3 (ECancelJob "b") twoJobsStarted)))
     = [].
Proof.
  assert (Hb : notQueued "b" (jobs (queue (step 3 (ECancelJob "b") twoJobsStarted)))).
  { intros j Hin Hid. simpl in Hin.
    destruct Hin as [<- | [<- | []]]; [discriminate Hid | discriminate]. }
  split; [exact Hb |].
  refine (proj1 (proj2 (job_is_handed_to_engine_once "b" _ _ Hb _))).
  repeat constructor. discriminate.
Defined.

(** * Failure of the engine *)

Lemma failed_records (now : Z) (e : JsError) (i : string) (l : list ConversionJob)
  (j' : ConversionJob) :
  In j' (updateIn i (failedUpdate now e) l) -> Job.id j' = i ->
  Job.status j' = failed /\ Job.error j' = Some e /\ Job.completedAt j' = Some now.
Proof.
  intros Hin Hid.
  destruct (in_updateIn_same i (failedUpdate now e) l j' eq_refl Hin Hid)
    as (j & _ & _ & ->).
  repeat split.
Qed.

Lemma isQueued_not_failed (now : Z) (e : JsError) (i : string) (l : list ConversionJob)
  (b : ConversionJob) :
  find isQueued (updateIn i (failedUpdate now e) l) = Some b -> Job.id b <> i.
Proof.
  intros H E. apply find_isQueued_in in H. destruct H as [Hin Hq].
  destruct (failed_records now e i l b Hin E) as (Hs & _). congruence.
Qed.

(** What the [catch] branch and the pass after it leave, for any state in
    which the [k]-th suspended loop holds [nj]. *)
Lemma rejection_settles (now : Z) (k : nat) (t : Thrown) (h : Hook)
  (nj : ConversionJob) :
  nth_error (loops h) k = Some nj ->
  (forall j', In j' (jobs (queue (step now (ERejected k t) h))) ->
              Job.id j' = Job.id nj ->
              Job.status j' = failed /\ Job.error j' = Some (asError t)
              /\ Job.completedAt j' = Some now)
  /\ engineCalls (step now (ERejected k t) h) = engineCalls h
  /\ loops (step now (ERejected k t) h) = removeNth k (loops h)
  /\ processingRef (step now (ERejected k t) h) = false
  /\ (forall b,
        find isQueued (jobs (queue (settle k nj (failedUpdate now (asError t)) h)))
        = Some b ->
        activeJob (queue (step now (ERejected k t) h)) = Some b
        /\ statusOf (Job.id b) (queue (step now (ERejected k t) h))
           = Some initializing).
Proof.
  intro Hk. unfold step, onRejected. rewrite Hk.
  set (s := settle k nj (failedUpdate now (asError t)) h).
  assert (Hs : jobs (queue s)
               = updateIn (Job.id nj) (failedUpdate now (asError t)) (jobs (queue h)))
    by reflexivity.
  destruct (find isQueued (jobs (queue s))) as [b |] eqn:Hb.
  - rewrite (loopFrom_deferred now s b Hb).
    cbn [queue engineCalls loops processingRef]. repeat split.
    + unfold claimedQueue in H. cbn [jobs] in H.
      assert (Hne : Job.id b <> Job.id nj).
      { rewrite Hs in Hb. exact (isQueued_not_failed _ _ _ _ _ Hb). }
      apply in_updateIn_other in H; [| reflexivity | congruence].
      rewrite Hs in H. now destruct (failed_records _ _ _ _ _ H H0).
    + unfold claimedQueue in H. cbn [jobs] in H.
      assert (Hne : Job.id b <> Job.id nj).
      { rewrite Hs in Hb. exact (isQueued_not_failed _ _ _ _ _ Hb). }
      apply in_updateIn_other in H; [| reflexivity | congruence].
      rewrite Hs in H. now destruct (failed_records _ _ _ _ _ H H0) as (_ & ? & _).
    + unfold claimedQueue in H. cbn [jobs] in H.
      assert (Hne : Job.id b <> Job.id nj).
      { rewrite Hs in Hb. exact (isQueued_not_failed _ _ _ _ _ Hb). }
      apply in_updateIn_other in H; [| reflexivity | congruence].
      rewrite Hs in H. now destruct (failed_records _ _ _ _ _ H H0) as (_ & _ & ?).
    + injection H as <-. reflexivity.
    + injection H as <-. apply statusOf_claimedQueue.
      apply in_map. exact (proj1 (find_isQueued_in _ _ Hb)).
  - rewrite (loopFrom_idle false now s Hb).
    cbn [queue engineCalls loops processingRef]. repeat split;
      try discriminate;
      rewrite Hs in H; now destruct (failed_records _ _ _ _ _ H H0) as (? & ? & ?).
Qed.

(** C3 fails on the code.  When the engine call of a suspended loop
    rejects, the [catch] branch does mark every record of the job failed,
    with the error it caught and [completedAt], and clears the active job;
    but the pass that follows tests [nextJob] while its selection is still
    queued, so the loop is left and the processing flag cleared: the next
    queued job is marked initializing by the queued updater and is never
    handed to the engine.  For [a], [b] submitted in order, with the engine
    failing on [a], [a] ends failed and [b] stays initializing, whatever
    follows. *)
Theorem engine_failure_ends_the_loop :
  (forall now k t h nj,
     nth_error (loops h) k = Some nj ->
     (forall j', In j' (jobs (queue (step now (ERejected k t) h))) ->
                 Job.id j' = Job.id nj ->
                 Job.status j' = failed /\ Job.error j' = Some (asError t)
                 /\ Job.completedAt j' = Some now)
     /\ engineCalls (step now (ERejected k t) h) = engineCalls h
     /\ loops (step now (ERejected k t) h) = removeNth k (loops h)
     /\ processingRef (step now (ERejected k t) h) = false
     /\ (forall b,
           find isQueued (jobs (queue (settle k nj (failedUpdate now (asError t)) h)))
           = Some b ->
           activeJob (queue (step now (ERejected k t) h)) = Some b
           /\ statusOf (Job.id b) (queue (step now (ERejected k t) h))
              = Some initializing))
  /\ map Job.status (jobs (queue failedFirst)) = [failed; initializing]
  /\ map Job.error (jobs (queue failedFirst))
     = [Some (PlainError "decode failed"); None]
  /\ map Job.completedAt (jobs (queue failedFirst)) = [Some 3%Z; None]
  /\ engineCalls failedFirst = [freshJob "a"]
  /\ loops failedFirst = []
  /\ processingRef failedFirst = false
  /\ (forall evs, Forall (fun te => noSubmissionOf "b" (snd te)) evs ->
                  filter (hasId "b") (engineCalls (run evs failedFirst)) = []
                  /\ notQueued "b" (jobs (queue (run evs failedFirst)))).
Proof.
  split; [exact rejection_settles |].
  repeat split; try reflexivity.
  - assert (Hb : notQueued "b" (jobs (queue failedFirst))).
    { intros j Hin Hid. simpl in Hin.
      destruct Hin as [<- | [<- | []]]; discriminate. }
    exact (proj2 (nq_run "b" evs failedFirst H Hb)).
  - assert (Hb : notQueued "b" (jobs (queue failedFirst))).
    { intros j Hin Hid. simpl in Hin.
      destruct Hin as [<- | [<- | []]]; discriminate. }
    exact (proj1 (nq_run "b" evs failedFirst H Hb)).
Qed.

(** * The status path of a completed job *)





(** ** Initializing and converting come before completed *)























(** * Errors and results on records *)

Lemma nodup_ids_filter (f : ConversionJob -> bool) (l : list ConversionJob) :
  NoDup (ids l) -> NoDup (ids (filter f l)).
Proof.
  induction l as [| a l IH]; simpl; intro H; [constructor |].
  inversion H as [| ? ? Hnot Hnd]; subst.
  destruct (f a); simpl; [constructor |]; auto.
  intro Hin. apply Hnot. unfold ids in *. apply in_map_iff in Hin.
  destruct Hin as (x & E & Hx). apply filter_In in Hx. rewrite <- E.
  apply in_map. exact (proj1 Hx).
Qed.

Lemma nodup_ids_inj (l : list ConversionJob) (a b : ConversionJob) :
  NoDup (ids l) -> In a l -> In b l -> Job.id a = Job.id b -> a = b.
Proof.
  intros Hnd Ha Hb E.
  pose proof (nodup_find_hasId l a Hnd Ha) as Fa.
  pose proof (nodup_find_hasId l b Hnd Hb) as Fb.
  rewrite E in Fa. congruence.
Qed.

Lemma tidy_update (i : string) (u : Partial) (l : list ConversionJob) :
  HookUpdate u -> tidy l -> tidy (updateIn i u l).
Proof.
  intros Hu [Hnd Hc]. split.
  - rewrite updateIn_ids; [exact Hnd | now apply HookUpdate_keeps_id].
  - intros j' Hin Hnt.
    destruct (in_updateIn _ _ _ _ Hin) as (j & Hj & [[_ ->] | [_ ->]]); [| now apply Hc].
    destruct Hu; simpl in *; try discriminate. now apply Hc.
Qed.

Lemma tidy_claim (now : Z) (nj : ConversionJob) (l : list ConversionJob) :
  find isQueued l = Some nj -> tidy l ->
  tidy (updateIn (Job.id nj) (initializingAt now) l).
Proof.
  intros F [Hnd Hc]. destruct (find_isQueued_in _ _ F) as [Hin Hq]. split.
  - now rewrite updateIn_ids by reflexivity.
  - intros j' Hin' Hnt.
    destruct (in_updateIn _ _ _ _ Hin') as (j & Hj & [[E ->] | [_ ->]]); [| now apply Hc].
    assert (j = nj) by (apply (nodup_ids_inj l); auto). subst j.
    simpl. apply Hc; [exact Hin | now rewrite Hq].
Qed.

Lemma tidy_convert (now : Z) (nj : ConversionJob) (l : list ConversionJob) :
  find isQueued l = Some nj -> tidy l ->
  tidy (updateIn (Job.id nj) convertingUpdate
                 (updateIn (Job.id nj) (initializingAt now) l)).
Proof.
  intros F Hl. destruct (tidy_claim now nj l F Hl) as [Hnd1 Hc1].
  destruct (find_isQueued_in _ _ F) as [Hin Hq]. destruct Hl as [Hnd Hc]. split.
  - now rewrite updateIn_ids by reflexivity.
  - intros j'' Hin'' Hnt.
    destruct (in_updateIn _ _ _ _ Hin'') as (j' & Hj' & [[E ->] | [_ ->]]);
      [| now apply Hc1].
    simpl. apply Hc1; [exact Hj' |].
    destruct (in_updateIn_same (Job.id nj) (initializingAt now) l j' eq_refl Hj' E)
      as (j & _ & _ & ->).
    reflexivity.
Qed.

Lemma step_keeps_tidy (now : Z) (e : Event) (h : Hook) :
  admits freshSubmission h e -> everywhere tidy h -> everywhere tidy (step now e h).
Proof.
  apply step_everywhere.
  - split; [constructor | intros j []].
  - intros l js [Hsub Hnd] [_ Hc]. split; [exact Hnd |].
    intros j Hin Hnt. apply in_app_or in Hin. destruct Hin as [Hin | Hin].
    + now apply Hc.
    + rewrite Forall_forall in Hsub. destruct (Hsub j Hin) as (_ & He & Hr). auto.
  - intros f l [Hnd Hc]. split; [now apply nodup_ids_filter |].
    intros j Hin. apply filter_In in Hin. apply Hc. exact (proj1 Hin).
  - apply tidy_update.
  - apply tidy_claim.
  - apply tidy_convert.
Qed.

Lemma reachable_tidy (h : Hook) :
  reachable (admits freshSubmission) h -> everywhere tidy h.
Proof.
  induction 1 as [| now e h _ IH Hok].
  - split; [split; [constructor | intros j []] | constructor].
  - now apply step_keeps_tidy.
Qed.

Lemma completedHook_reachable : reachable (admits freshSubmission) completedHook.
Proof.
  apply (reachable_step _ 3%Z (EResolved 0 demoResult)); [| exact I].
  apply (reachable_step _ 2%Z (EStartQueue true)); [| exact I].
  apply (reachable_step _ 1%Z (EAddJob (freshJob "a"))); [constructor |].
  split; simpl.
  - repeat constructor.
  - repeat constructor. intros [].
Defined.

(** C6 fails on the code: [cancelJob] attaches an error to the record it
    marks cancelled.  Since [updateJob] merges fields, a job cancelled while
    converting keeps that error when its conversion resolves and marks it
    completed, and a completed job that is cancelled keeps its result. *)
Lemma cancelled_job_carries_error :
  map (fun j => (Job.status j, Job.error j))
      (jobs (queue (step 2 (ECancelJob "a") oneJobQueued)))
  = [(cancelled, Some (ConversionError CANCELLED "Conversion was cancelled by user."))]
  /\ ~ (forall j, In j (jobs (queue (step 2 (ECancelJob "a") oneJobQueued))) ->
                  Job.error j <> None -> Job.status j = failed)
  /\ map (fun j => (Job.status j, Job.error j))
         (firstn 1 (jobs (queue cancelAllRestartRun)))
     = [(completed,
         Some (ConversionError CANCELLED "Conversion was cancelled by user."))]
  /\ map (fun j => (Job.status j, Job.result j))
         (jobs (queue (step 9 (ECancelJob "a") completedHook)))
     = [(cancelled, Some demoResult)].
Proof.
  split; [reflexivity | split; [| split; reflexivity]]. intro H.
  specialize (H (cancelledRecord 2 (freshJob "a")) (or_introl eq_refl)).
  simpl in H. assert (C : cancelled = failed) by (apply H; discriminate).
  discriminate C.
Qed.

(** C6, as the code has it: in every state reached by the hook's events
    (jobs submitted queued, without error or result, under distinct ids), a
    record that carries an error or a result has a terminal status, and a
    record that is queued, initializing, converting or finalizing carries
    neither.  A cancelled record does carry an error: [cancelJob] marks every
    record of the id cancelled and attaches the cancellation error. *)
Theorem error_and_result_only_on_terminal_records (h : Hook) :
  reachable (admits freshSubmission) h ->
  (forall j, In j (jobs (queue h)) ->
             Job.error j <> None \/ Job.result j <> None ->
             Job.status j = completed \/ Job.status j = failed
             \/ Job.status j = cancelled)
  /\ (forall j, In j (jobs (queue h)) ->
                Job.status j = queued \/ Job.status j = initializing
                \/ Job.status j = converting \/ Job.status j = finalizing ->
                Job.error j = None /\ Job.result j = None)
  /\ (forall now jobId job j,
        find (hasId jobId) (jobs (queue h)) = Some job -> needsAbort job = false ->
        In j (jobs (queue (step now (ECancelJob jobId) h))) -> Job.id j = jobId ->
        Job.status j = cancelled
        /\ Job.error j
           = Some (ConversionError CANCELLED "Conversion was cancelled by user.")).
Proof.
  intro Hr. destruct (reachable_tidy h Hr) as [[_ Hc] _].
  split; [| split].
  - intros j Hin Hne. destruct (Job.status j) eqn:Hs; auto; exfalso;
      (destruct (Hc j Hin) as [He Hres]; [now rewrite Hs |];
       destruct Hne as [Hne | Hne]; contradiction).
  - intros j Hin Hs. apply Hc; [exact Hin |].
    destruct Hs as [-> | [-> | [-> | ->]]]; reflexivity.
  - intros now jobId job j Hf Hab Hin Hid. unfold step, cancelJob in Hin.
    rewrite Hf, Hab in Hin.
    destruct (in_updateIn_same jobId (cancelledUpdate now) _ j eq_refl Hin Hid)
      as (j0 & _ & _ & ->).
    split; reflexivity.
Qed.

Lemma error_and_result_witness :
  reachable (admits freshSubmission) completedHook
  /\ Forall (fun j => Job.error j <> None \/ Job.result j <> None ->
                      Job.status j = completed \/ Job.status j = failed
                      \/ Job.status j = cancelled)
            (jobs (queue completedHook)).
Proof.
  split; [exact completedHook_reachable |].
  apply Forall_forall.
  exact (proj1 (error_and_result_only_on_terminal_records completedHook
                  completedHook_reachable)).
Defined.

(** * One job in flight *)

(** A pass whose selection is still queued at the test leaves the loop with
    the flag cleared, and the job the updater then claims stays
    initializing without an engine call. *)
Lemma deferred_pass_strands_the_job (now : Z) (h : Hook) (nj : ConversionJob) :
  find isQueued (jobs (queue h)) = Some nj ->
  processingRef (loopFrom false now h) = false
  /\ loops (loopFrom false now h) = loops h
  /\ engineCalls (loopFrom false now h) = engineCalls h
  /\ activeJob (queue (loopFrom false now h)) = Some nj
  /\ statusOf (Job.id nj) (queue (loopFrom false now h)) = Some initializing.
Proof.
  intro F. rewrite (loopFrom_deferred now h nj F). repeat split.
  apply statusOf_claimedQueue. apply in_map. exact (proj1 (find_isQueued_in _ _ F)).
Qed.

(** C2 fails on the code.  A call of [startQueue] whose selection is still
    queued when the loop tests [nextJob] leaves the loop and clears the
    processing flag, and the queued updater then marks the first queued job
    initializing; so does the pass that follows every engine call.  The
    flag no longer guards that job: the next call of [startQueue] claims
    another one.  With [a], [b] submitted and [startQueue] called twice,
    both records are in flight; with three jobs, the second is left
    initializing when the first completes and the next call claims the
    third beside it. *)
Theorem two_records_in_flight :
  (forall now h nj,
     find isQueued (jobs (queue h)) = Some nj ->
     processingRef (loopFrom false now h) = false
     /\ loops (loopFrom false now h) = loops h
     /\ engineCalls (loopFrom false now h) = engineCalls h
     /\ activeJob (queue (loopFrom false now h)) = Some nj
     /\ statusOf (Job.id nj) (queue (loopFrom false now h)) = Some initializing)
  /\ (forall second,
        map Job.status (jobs (queue (restartedWhilePending second)))
        = [initializing; if second then converting else initializing]
        /\ activeCount (statistics (restartedWhilePending second)) = 2
        /\ ~ activeCount (statistics (restartedWhilePending second)) <= 1)
  /\ (forall second,
        map Job.status (jobs (queue (restartedAfterCompletion second)))
        = [completed; initializing; if second then converting else initializing]
        /\ activeCount (statistics (restartedAfterCompletion second)) = 2
        /\ ~ activeCount (statistics (restartedAfterCompletion second)) <= 1).
Proof.
  split; [exact deferred_pass_strands_the_job |].
  split; intros [|]; (split; [reflexivity | split; [reflexivity |]]);
    vm_compute; lia.
Qed.

(** * Start requests *)

Lemma engineCalls_cancelAllFrom (snapshot : list ConversionJob) (now : Z)
  (todo : list ConversionJob) :
  forall h, engineCalls (cancelAllFrom snapshot now todo h) = engineCalls h.
Proof.
  induction todo as [| job rest IH]; intro h; cbn [cancelAllFrom]; [reflexivity |].
  destruct (find (hasId (Job.id job)) snapshot) as [found |]; [| apply IH].
  destruct (needsAbort found); [reflexivity |]. now rewrite IH.
Qed.

Lemma engineCalls_loopFrom (eager : bool) (now : Z) (h : Hook) :
  List.length (engineCalls (loopFrom eager now h))
  <= List.length (engineCalls h) + (if eager then 1 else 0).
Proof.
  destruct (find isQueued (jobs (queue h))) as [nj |] eqn:F.
  - destruct eager.
    + rewrite (loopFrom_claims now h nj F). cbn [engineCalls].
      rewrite length_app. simpl. lia.
    + rewrite (loopFrom_deferred now h nj F). cbn [engineCalls]. lia.
  - rewrite (loopFrom_idle eager now h F). cbn [engineCalls]. lia.
Qed.

Lemma engineCalls_startQueue (eager : bool) (now : Z) (h : Hook) :
  List.length (engineCalls (startQueue eager now h))
  <= List.length (engineCalls h) + (if eager then 1 else 0).
Proof.
  unfold startQueue. destruct (processingRef h); [lia |].
  exact (engineCalls_loopFrom eager now (setProcessing true h)).
Qed.

(** An event hands at most one job to the engine, and only a call of
    [startQueue] whose selection is eager hands one. *)
Lemma engineCalls_step (now : Z) (e : Event) (h : Hook) :
  List.length (engineCalls (step now e h))
  <= List.length (engineCalls h) + startsEngine e.
Proof.
  destruct e; cbn [step startsEngine]; try (simpl; lia).
  - pose proof (engineCalls_startQueue eager now h). destruct eager; lia.
  - unfold cancelJob. destruct (find (hasId jobId) (jobs (queue h))) as [job |]; [| lia].
    destruct (needsAbort job); simpl; lia.
  - unfold cancelAll. rewrite engineCalls_cancelAllFrom. lia.
  - unfold autoStartEffect.
    destruct (autoStartRef h && negb (processingRef h)
              && existsb isQueued (jobs (queue h))); [| destruct eager; lia].
    pose proof (engineCalls_startQueue eager now (setAutoStart false h)) as H.
    simpl in H. destruct eager; lia.
  - unfold onProgress. destruct (nth_error (loops h) k); simpl; lia.
  - unfold onResolved. destruct (nth_error (loops h) k) as [nj |]; [| lia].
    pose proof (engineCalls_loopFrom false now (settle k nj (completedUpdate now r) h))
      as H. simpl in H. simpl. lia.
  - unfold onRejected. destruct (nth_error (loops h) k) as [nj |]; [| lia].
    pose proof (engineCalls_loopFrom false now
                  (settle k nj (failedUpdate now (asError t)) h)) as H.
    simpl in H. simpl. lia.
  - unfold onCancelSettled. destruct (nth_error (cancels h) k) as [task |]; [| lia].
    destruct (ct_cont task) as [[snapshot rest] |]; [| simpl; lia].
    rewrite engineCalls_cancelAllFrom. simpl. lia.
Qed.

Lemma engineCalls_run (evs : list (Z * Event)) :
  forall h, List.length (engineCalls (run evs h))
            <= List.length (engineCalls h) + eagerStarts evs.
Proof.
  induction evs as [| [t e] evs IH]; intro h; simpl; [lia |].
  pose proof (IH (step t e h)). pose proof (engineCalls_step t e h). lia.
Qed.

(** C1 fails on the code.  The guard itself works: [startQueue] called
    while the processing flag is set changes nothing.  But a call of
    [startQueue] never processes the queue: the pass that follows an engine
    call tests [nextJob] before its queued selection has run, so the loop is
    left after one job at most.  Over any run the engine receives at most
    one job per call of [startQueue] whose selection is eager, and none for
    the others.  With three queued jobs and two calls in a row, at most one
    job is converted and the scheduler is idle at the end, one job left
    initializing for ever and one initializing or still queued. *)
Theorem start_requests_leave_jobs_unprocessed :
  (forall eager now h, processingRef h = true -> startQueue eager now h = h)
  /\ (forall evs h, List.length (engineCalls (run evs h))
                    <= List.length (engineCalls h) + eagerStarts evs)
  /\ (forall first second,
        map Job.status (jobs (queue (startedTwice first second)))
        = (if first then [completed; initializing; queued]
           else if second then [initializing; completed; initializing]
           else [initializing; initializing; queued])
        /\ List.length (engineCalls (startedTwice first second)) <= 1
        /\ completedCount (statistics (startedTwice first second)) <= 1
        /\ loops (startedTwice first second) = []
        /\ processingRef (startedTwice first second) = false).
Proof.
  split; [exact startQueue_noop | split; [intros evs h; apply engineCalls_run |]].
  intros [|] [|]; repeat split; vm_compute; lia.
Qed.

(** * First in, first out *)



















(** * The statistics as a whole *)

Lemma count_by_status (l : list ConversionJob) :
  List.length l
  = countStatus completed l + countStatus failed l + countStatus queued l
    + List.length (filter (fun j => isActiveStatus (Job.status j)) l)
    + countStatus cancelled l.
Proof.
  unfold countStatus. induction l as [| a l IH]; simpl; [reflexivity |].
  rewrite IH. destruct (Job.status a); simpl; lia.
Qed.

(** X1: the counters of [statistics] partition the job list but for the
    cancelled jobs, which no counter reports: the total is the sum of the
    four counters plus the number of cancelled jobs.  When [isComplete]
    holds, completed and failed jobs make up the whole list. *)
Theorem statistics_counters_partition (h : Hook) :
  totalJobs (statistics h)
  = completedCount (statistics h) + failedCount (statistics h)
    + queuedCount (statistics h) + activeCount (statistics h)
    + countStatus cancelled (jobs (queue h))
  /\ completedCount (statistics h) + failedCount (statistics h)
     + queuedCount (statistics h) + activeCount (statistics h)
     <= totalJobs (statistics h)
  /\ (isComplete (statistics h) = true ->
      completedCount (statistics h) + failedCount (statistics h)
      = totalJobs (statistics h)
      /\ queuedCount (statistics h) = 0 /\ activeCount (statistics h) = 0
      /\ 0 < totalJobs (statistics h)).
Proof.
  pose proof (count_by_status (jobs (queue h))) as Hc. simpl.
  split; [exact Hc | split; [lia |]].
  intro Hdone. apply andb_true_iff in Hdone. destruct Hdone as [Hpos Hall].
  apply Nat.ltb_lt in Hpos.
  assert (Hz : countStatus queued (jobs (queue h)) = 0
               /\ List.length (filter (fun j => isActiveStatus (Job.status j))
                                      (jobs (queue h))) = 0
               /\ countStatus cancelled (jobs (queue h)) = 0).
  { clear Hc Hpos. unfold countStatus.
    induction (jobs (queue h)) as [| a l IH]; simpl in *; [auto |].
    apply andb_true_iff in Hall. destruct Hall as [Ha Hl].
    destruct (IH Hl) as (I1 & I2 & I3).
    destruct (Job.status a); simpl in *; try discriminate; auto. }
  destruct Hz as (Z1 & Z2 & Z3). lia.
Qed.

Lemma statistics_counters_witness :
  isComplete (statistics completedHook) = true
  /\ completedCount (statistics completedHook) + failedCount (statistics completedHook)
     = totalJobs (statistics completedHook).
Proof.
  split; [reflexivity |].
  exact (proj1 (proj2 (proj2 (statistics_counters_partition completedHook)) eq_refl)).
Defined.

Lemma fold_sum_shift (l : list ConversionJob) (acc : Z) :
  fold_left (fun sum j => (sum + Job.progress j)%Z) l acc
  = (acc + sumProgress l)%Z.
Proof.
  unfold sumProgress. revert acc. induction l as [| a l IH]; intro acc; simpl; [lia |].
  rewrite (IH (acc + Job.progress a)%Z), (IH (Job.progress a)). lia.
Qed.

Lemma sumProgress_cons (a : ConversionJob) (l : list ConversionJob) :
  sumProgress (a :: l) = (Job.progress a + sumProgress l)%Z.
Proof. unfold sumProgress at 1. simpl. now rewrite fold_sum_shift. Qed.

Lemma sumProgress_bounds (lo hi : Z) (l : list ConversionJob) :
  Forall (fun j => (lo <= Job.progress j <= hi)%Z) l ->
  (lo * Z.of_nat (List.length l) <= sumProgress l <= hi * Z.of_nat (List.length l))%Z.
Proof.
  induction 1 as [| a l Ha _ IH].
  - unfold sumProgress. simpl. lia.
  - rewrite sumProgress_cons. cbn [List.length]. rewrite Nat2Z.inj_succ. lia.
Qed.

(** X2: for progress values from 0 to 100, the range that the hook writes
    and in which the integer sum and quotient are those of the code,
    [overallProgress] is the mean of the jobs' progress rounded to the
    nearest integer, halves up: it lies within one half of the mean and
    between 0 and 100. *)
Theorem overallProgress_is_rounded_mean (h : Hook) :
  jobs (queue h) <> [] ->
  Forall (fun j => (0 <= Job.progress j <= 100)%Z) (jobs (queue h)) ->
  (0 <= overallProgress (statistics h) <= 100)%Z
  /\ (2 * Z.of_nat (totalJobs (statistics h)) * overallProgress (statistics h)
      <= 2 * sumProgress (jobs (queue h)) + Z.of_nat (totalJobs (statistics h))
      < 2 * Z.of_nat (totalJobs (statistics h)) * (overallProgress (statistics h) + 1))%Z.
Proof.
  intros Hne Hall. pose proof (sumProgress_bounds 0 100 _ Hall) as Hs.
  unfold statistics. cbn [overallProgress totalJobs].
  destruct (jobs (queue h)) as [| a l] eqn:E; [congruence |].
  remember (a :: l) as js. assert (Hn : (0 < Z.of_nat (List.length js))%Z).
  { subst js. simpl. lia. }
  assert (Hlt : (0 <? List.length js)%nat = true) by (apply Nat.ltb_lt; lia).
  rewrite Hlt. unfold roundDiv.
  set (n := Z.of_nat (List.length js)) in *. set (s := sumProgress js) in *.
  assert (Hd : (0 < 2 * n)%Z) by lia.
  pose proof (Z.mul_div_le (2 * s + n) (2 * n) Hd) as H1.
  pose proof (Z.mul_succ_div_gt (2 * s + n) (2 * n) Hd) as H2.
  split; [| lia]. split.
  - apply Z.div_le_lower_bound; [exact Hd | nia].
  - assert (((2 * s + n) / (2 * n) < 100 + 1)%Z); [| lia].
    apply Z.div_lt_upper_bound; [exact Hd | nia].
Qed.

Lemma overallProgress_witness :
  jobs (queue cancelAllRestartRun) <> []
  /\ (0 <= overallProgress (statistics cancelAllRestartRun) <= 100)%Z.
Proof.
  assert (Hne : jobs (queue cancelAllRestartRun) <> []) by discriminate.
  split; [exact Hne |].
  refine (proj1 (overallProgress_is_rounded_mean cancelAllRestartRun Hne _)).
  simpl. repeat constructor; simpl; lia.
Defined.

(** * Removing records *)

Lemma count_filter_other (s : ConversionStatus) (f : ConversionJob -> bool)
  (l : list ConversionJob) :
  (forall j, In j l -> Job.status j = s -> f j = true) ->
  countStatus s (filter f l) = countStatus s l.
Proof.
  unfold countStatus. induction l as [| a l IH]; simpl; intro H; [reflexivity |].
  destruct (f a) eqn:Fa; simpl.
  - destruct (status_eqb (Job.status a) s); simpl; rewrite IH; auto.
  - destruct (status_eqb (Job.status a) s) eqn:Es.
    + apply status_eqb_eq in Es. rewrite (H a (or_introl eq_refl) Es) in Fa.
      discriminate.
    + apply IH. auto.
Qed.

Lemma filter_filter_same {A : Type} (f : A -> bool) (l : list A) :
  filter f (filter f l) = filter f l.
Proof.
  induction l as [| a l IH]; simpl; [reflexivity |].
  destruct (f a) eqn:Fa; simpl; [rewrite Fa; f_equal |]; exact IH.
Qed.

Lemma filter_length_split {A : Type} (f : A -> bool) (l : list A) :
  List.length (filter f l) + List.length (filter (fun x => negb (f x)) l)
  = List.length l.
Proof.
  induction l as [| a l IH]; simpl; [reflexivity |].
  destruct (f a); simpl; lia.
Qed.

Lemma filter_active_keeps (l : list ConversionJob) :
  filter (fun j => isActiveStatus (Job.status j))
         (filter (fun j => negb (status_eqb (Job.status j) completed)) l)
  = filter (fun j => isActiveStatus (Job.status j)) l.
Proof.
  induction l as [| a l IH]; simpl; [reflexivity |].
  destruct (Job.status a) eqn:Ea; simpl; rewrite ?Ea; simpl; rewrite IH; reflexivity.
Qed.

Lemma filter_hasId_other (jobId other : string) (l : list ConversionJob) :
  other <> jobId ->
  filter (hasId other) (filter (fun j => negb (String.eqb (Job.id j) jobId)) l)
  = filter (hasId other) l.
Proof.
  intro Hne. induction l as [| a l IH]; simpl; [reflexivity |].
  destruct (String.eqb (Job.id a) jobId) eqn:Ka; simpl.
  - apply String.eqb_eq in Ka. unfold hasId at 2. rewrite Ka.
    assert (En : String.eqb jobId other = false).
    { apply String.eqb_neq. congruence. }
    rewrite En. exact IH.
  - destruct (hasId other a); [f_equal |]; exact IH.
Qed.

Lemma filter_absent_id (jobId : string) (l : list ConversionJob) :
  ~ In jobId (ids l) ->
  filter (fun j => negb (String.eqb (Job.id j) jobId)) l = l.
Proof.
  induction l as [| a l IH]; simpl; intro Habs; [reflexivity |].
  destruct (String.eqb (Job.id a) jobId) eqn:Ka; simpl.
  - apply String.eqb_eq in Ka. exfalso. auto.
  - rewrite IH; auto.
Qed.

(** X3: [clearCompleted] drops exactly the completed records and keeps the
    others in their order: afterwards no job is completed, the failed,
    queued and active counters are as before, and the total has gone down
    by the number of completed jobs.  The active job, the processing flag
    and the suspended loops are not touched, and a second call changes
    nothing. *)
Theorem clearCompleted_drops_completed_only (h : Hook) :
  completedCount (statistics (clearCompleted h)) = 0
  /\ failedCount (statistics (clearCompleted h)) = failedCount (statistics h)
  /\ queuedCount (statistics (clearCompleted h)) = queuedCount (statistics h)
  /\ activeCount (statistics (clearCompleted h)) = activeCount (statistics h)
  /\ totalJobs (statistics (clearCompleted h)) + completedCount (statistics h)
     = totalJobs (statistics h)
  /\ (forall j, In j (jobs (queue (clearCompleted h)))
                <-> In j (jobs (queue h)) /\ Job.status j <> completed)
  /\ activeJob (queue (clearCompleted h)) = activeJob (queue h)
  /\ isProcessing (statistics (clearCompleted h)) = isProcessing (statistics h)
  /\ loops (clearCompleted h) = loops h
  /\ queue (clearCompleted (clearCompleted h)) = queue (clearCompleted h).
Proof.
  set (keep := fun j : ConversionJob => negb (status_eqb (Job.status j) completed)).
  assert (Hjobs : jobs (queue (clearCompleted h)) = filter keep (jobs (queue h)))
    by reflexivity.
  assert (Hkeep : forall s, s <> completed ->
            forall j, In j (jobs (queue h)) -> Job.status j = s -> keep j = true).
  { intros s Hs j _ E. unfold keep. rewrite E.
    destruct s; try reflexivity. contradiction. }
  split; [| split; [| split; [| split; [| split; [| split; [| repeat split]]]]]].
  - cbn [statistics completedCount]. rewrite Hjobs. unfold countStatus.
    rewrite (filter_all_false _ (filter keep (jobs (queue h)))); [reflexivity |].
    apply Forall_forall. intros j Hj. apply filter_In in Hj. destruct Hj as [_ Hk].
    unfold keep in Hk. now apply negb_true_iff in Hk.
  - cbn [statistics failedCount]. rewrite Hjobs.
    apply count_filter_other. apply Hkeep. discriminate.
  - cbn [statistics queuedCount]. rewrite Hjobs.
    apply count_filter_other. apply Hkeep. discriminate.
  - cbn [statistics activeCount]. rewrite Hjobs. unfold keep.
    now rewrite filter_active_keeps.
  - cbn [statistics totalJobs completedCount]. rewrite Hjobs. unfold countStatus.
    assert (E : List.length (filter (fun j => status_eqb (Job.status j) completed)
                                    (jobs (queue h)))
                + List.length (filter keep (jobs (queue h)))
                = List.length (jobs (queue h))).
    { exact (filter_length_split
               (fun j => status_eqb (Job.status j) completed) (jobs (queue h))). }
    lia.
  - intro j. rewrite Hjobs, filter_In. unfold keep.
    rewrite negb_true_iff, status_eqb_neq. reflexivity.
  - unfold clearCompleted, setQueue. cbn [queue]. f_equal.
    cbn [jobs]. apply filter_filter_same.
Qed.

Lemma removeJob_absent (jobId : string) (h : Hook) :
  ~ In jobId (ids (jobs (queue (removeJob jobId h)))).
Proof.
  change (jobs (queue (removeJob jobId h)))
    with (filter (fun j : ConversionJob => negb (String.eqb (Job.id j) jobId))
                 (jobs (queue h))).
  unfold ids. rewrite in_map_iff. intros (j & E & Hin).
  apply filter_In in Hin. destruct Hin as [_ Hkj]. apply negb_true_iff in Hkj.
  apply String.eqb_neq in Hkj. contradiction.
Qed.

(** X4: [removeJob] deletes every record carrying the id and keeps the others
    in their order; the active job is cleared exactly when it carries the
    id.  With an id that no record carries the job list is as before.
    Nothing else is touched: a loop suspended on the removed job stays
    suspended, and the processing flag stays as it is. *)
Theorem removeJob_deletes_by_id (jobId : string) (h : Hook) :
  ~ In jobId (ids (jobs (queue (removeJob jobId h))))
  /\ (forall j, In j (jobs (queue (removeJob jobId h)))
                <-> In j (jobs (queue h)) /\ Job.id j <> jobId)
  /\ (forall other, other <> jobId ->
        filter (hasId other) (jobs (queue (removeJob jobId h)))
        = filter (hasId other) (jobs (queue h)))
  /\ (~ In jobId (ids (jobs (queue h))) ->
      jobs (queue (removeJob jobId h)) = jobs (queue h))
  /\ activeJob (queue (removeJob jobId h))
     = (if activeIs jobId (activeJob (queue h)) then None else activeJob (queue h))
  /\ loops (removeJob jobId h) = loops h
  /\ processingRef (removeJob jobId h) = processingRef h
  /\ engineCalls (removeJob jobId h) = engineCalls h.
Proof.
  set (keep := fun j : ConversionJob => negb (String.eqb (Job.id j) jobId)).
  assert (Hjobs : jobs (queue (removeJob jobId h)) = filter keep (jobs (queue h)))
    by reflexivity.
  assert (Hk : forall j, keep j = true <-> Job.id j <> jobId).
  { intro j. unfold keep. rewrite negb_true_iff. apply String.eqb_neq. }
  split; [| split; [| split; [| split; [| repeat split]]]].
  - apply removeJob_absent.
  - intro j. rewrite Hjobs, filter_In, Hk. reflexivity.
  - intros other Hne. rewrite Hjobs. now apply filter_hasId_other.
  - intro Habs. rewrite Hjobs. now apply filter_absent_id.
Qed.

(** * A job removed while it is converted *)




(** * Cancelling everything *)

Lemma nth_error_last {A : Type} (l : list A) (x : A) :
  nth_error (l ++ [x]) (List.length l) = Some x.
Proof. induction l as [| a l IH]; simpl; [reflexivity | exact IH]. Qed.

Lemma removeNth_last {A : Type} (l : list A) (x : A) :
  removeNth (List.length l) (l ++ [x]) = l.
Proof.
  induction l as [| a l IH]; [reflexivity |].
  change (a :: removeNth (List.length l) (l ++ [x]) = a :: l). now rewrite IH.
Qed.

Lemma cancelled_records (now : Z) (i : string) (l : list ConversionJob)
  (j' : ConversionJob) :
  In j' (updateIn i (cancelledUpdate now) l) -> Job.id j' = i ->
  Job.status j' = cancelled /\ Job.error j' = Some cancellationError
  /\ Job.completedAt j' = Some now.
Proof.
  intros Hin Hid.
  destruct (in_updateIn_same i (cancelledUpdate now) l j' eq_refl Hin Hid)
    as (j & _ & _ & ->).
  repeat split.
Qed.

Lemma in_updateIn_keep (i : string) (u : Partial) (l : list ConversionJob)
  (j : ConversionJob) :
  In j l -> Job.id j <> i -> In j (updateIn i u l).
Proof.
  intros Hin Hne. unfold updateIn. apply in_map_iff. exists j. split; [| exact Hin].
  apply String.eqb_neq in Hne. now rewrite Hne.
Qed.

Lemma cancelAllFrom_to_the_end (snapshot todo : list ConversionJob) :
  Forall (fun t => In t snapshot) todo ->
  forall (now : Z) (times : list Z) (h : Hook),
    List.length times = List.length (filter (awaitsAbort snapshot) todo) ->
    CancelledAll todo h
      (run (acknowledgements (List.length (cancels h)) times)
           (cancelAllFrom snapshot now todo h)).
Proof.
  induction 1 as [| job rest Hjob _ IH]; intros now times h Hlen.
  - simpl in Hlen. destruct times; [| discriminate]. simpl.
    constructor; simpl; auto; try contradiction. intros j _. reflexivity.
  - assert (Hfound : exists found, find (hasId (Job.id job)) snapshot = Some found).
    { destruct (find_hasId_present (Job.id job) snapshot) as (f & Hf & _);
        [now apply in_map | now exists f]. }
    destruct Hfound as (found & Hf).
    cbn [cancelAllFrom]. rewrite Hf. cbn [filter] in Hlen.
    unfold awaitsAbort at 1 in Hlen. rewrite Hf in Hlen.
    assert (Hstep : forall t hf,
              CancelledAll rest (updateJob (Job.id job) (cancelledUpdate t) h) hf ->
              CancelledAll (job :: rest) h hf).
    { intros t hf [F L C K I D R]. constructor; auto.
      - rewrite I. simpl. now rewrite updateIn_ids by reflexivity.
      - intros j' Hin Hid.
        destruct (in_dec string_dec (Job.id j') (ids rest)) as [Hr | Hr];
          [now apply D |].
        destruct Hid as [Hid | Hid]; [| contradiction].
        apply (R j' Hr) in Hin. simpl in Hin.
        destruct (cancelled_records t (Job.id job) _ j' Hin (eq_sym Hid))
          as (S1 & S2 & S3).
        repeat split; auto. rewrite S3. discriminate.
      - intros j Hnot. simpl in Hnot.
        assert (Hr : ~ In (Job.id j) (ids rest)) by tauto.
        assert (Hne : Job.id j <> Job.id job)
          by (intro E; apply Hnot; left; congruence).
        rewrite (R j Hr). simpl. split.
        + intro Hin.
          exact (in_updateIn_other (Job.id job) (cancelledUpdate t) _ j eq_refl Hin Hne).
        + intro Hin. now apply in_updateIn_keep. }
    destruct (needsAbort found).
    + destruct times as [| t times]; [discriminate |]. simpl in Hlen.
      injection Hlen as Hlen.
      cbn [acknowledgements map run step].
      assert (Hack : onCancelSettled t (List.length (cancels h))
                       (setCancels
                          (cancels h
                           ++ [mkCancelTask (Job.id job) (Some (snapshot, rest))]) h)
                     = cancelAllFrom snapshot t rest
                         (updateJob (Job.id job) (cancelledUpdate t) h)).
      { unfold onCancelSettled. cbn [cancels setCancels].
        rewrite nth_error_last. cbn [ct_jobId ct_cont]. rewrite removeNth_last.
        reflexivity. }
      rewrite Hack. apply (Hstep t).
      exact (IH t times (updateJob (Job.id job) (cancelledUpdate t) h) Hlen).
    + apply (Hstep now).
      exact (IH now times (updateJob (Job.id job) (cancelledUpdate now) h) Hlen).
Qed.

Lemma toCancel_statuses (j : ConversionJob) :
  toCancel j = false <->
  Job.status j <> queued /\ Job.status j <> initializing /\ Job.status j <> converting.
Proof.
  unfold toCancel. destruct (Job.status j); simpl; split; intro H;
    try reflexivity; try discriminate; try (repeat split; discriminate);
    destruct H as (H1 & H2 & H3); contradiction.
Qed.

Lemma cancelAll_ends (now : Z) (times : list Z) (h : Hook) :
  List.length times
  = List.length (filter (awaitsAbort (jobs (queue h)))
                        (filter toCancel (jobs (queue h)))) ->
  CancelledAll (filter toCancel (jobs (queue h))) h (cancelAllAcknowledged now times h).
Proof.
  intro Hlen. unfold cancelAllAcknowledged, step, cancelAll.
  apply cancelAllFrom_to_the_end; [| exact Hlen].
  apply Forall_forall. intros t Ht. apply filter_In in Ht. exact (proj1 Ht).
Qed.

(** X6: [cancelAll], once each of its [cancelService] calls has been
    acknowledged: no record is queued, initializing or converting any more;
    every record that was has status cancelled with the cancellation error
    and [completedAt] stamped; the processing flag is cleared.  The engine
    call of a job that was converting is not ended by it: the loop stays
    suspended. *)
Theorem cancelAll_cancels_every_pending_job (now : Z) (times : list Z) (h : Hook) :
  List.length times
  = List.length (filter (awaitsAbort (jobs (queue h)))
                        (filter toCancel (jobs (queue h)))) ->
  (forall j', In j' (jobs (queue (cancelAllAcknowledged now times h))) ->
              Job.status j' <> queued /\ Job.status j' <> initializing
              /\ Job.status j' <> converting)
  /\ (forall j j', In j (jobs (queue h)) -> toCancel j = true ->
                   In j' (jobs (queue (cancelAllAcknowledged now times h))) ->
                   Job.id j' = Job.id j ->
                   Job.status j' = cancelled
                   /\ Job.error j' = Some cancellationError
                   /\ Job.completedAt j' <> None)
  /\ ids (jobs (queue (cancelAllAcknowledged now times h))) = ids (jobs (queue h))
  /\ queuedCount (statistics (cancelAllAcknowledged now times h)) = 0
  /\ processingRef (cancelAllAcknowledged now times h) = false
  /\ loops (cancelAllAcknowledged now times h) = loops h
  /\ cancels (cancelAllAcknowledged now times h) = cancels h.
Proof.
  intro Hlen. destruct (cancelAll_ends now times h Hlen) as [F L C K I D R].
  set (hf := cancelAllAcknowledged now times h) in *.
  set (todo := filter toCancel (jobs (queue h))) in *.
  assert (Hnone : forall j', In j' (jobs (queue hf)) ->
            Job.status j' <> queued /\ Job.status j' <> initializing
            /\ Job.status j' <> converting).
  { intros j' Hin.
    destruct (in_dec string_dec (Job.id j') (ids todo)) as [Hid | Hid].
    - destruct (D j' Hin Hid) as (S1 & _). rewrite S1. repeat split; discriminate.
    - apply (R j' Hid) in Hin. apply toCancel_statuses.
      destruct (toCancel j') eqn:Ej; [| reflexivity].
      exfalso. apply Hid. apply in_map. apply filter_In. auto. }
  split; [exact Hnone | split; [| split; [exact I | split; [| auto]]]].
  - intros j j' Hj Hc Hin Hid. apply D; [exact Hin |].
    rewrite Hid. apply in_map. apply filter_In. auto.
  - cbn [statistics queuedCount]. unfold countStatus.
    rewrite filter_all_false; [reflexivity |].
    apply Forall_forall. intros j' Hin. destruct (Hnone j' Hin) as (Hq & _).
    now apply status_eqb_neq.
Qed.

Lemma cancelAll_cancels_witness :
  map Job.status (jobs (queue (cancelAllAcknowledged 3 [4%Z] twoJobsStarted)))
  = [cancelled; cancelled]
  /\ queuedCount (statistics (cancelAllAcknowledged 3 [4%Z] twoJobsStarted)) = 0
  /\ loops (cancelAllAcknowledged 3 [4%Z] twoJobsStarted) = loops twoJobsStarted.
Proof.
  pose proof (cancelAll_cancels_every_pending_job 3 [4%Z] twoJobsStarted eq_refl) as H.
  split; [reflexivity | split].
  - exact (proj1 (proj2 (proj2 (proj2 H)))).
  - exact (proj1 (proj2 (proj2 (proj2 (proj2 (proj2 H)))))).
Defined.

Lemma cancelAllFrom_keeps (snapshot : list ConversionJob) (now : Z)
  (todo : list ConversionJob) (j : ConversionJob) :
  ~ In (Job.id j) (ids todo) ->
  forall h : Hook, In j (jobs (queue h)) ->
                   In j (jobs (queue (cancelAllFrom snapshot now todo h))).
Proof.
  induction todo as [| job rest IH]; intros Hid h Hin; [exact Hin |].
  cbn [cancelAllFrom].
  assert (Hr : ~ In (Job.id j) (ids rest)) by (intro X; apply Hid; now right).
  assert (Hne : Job.id j <> Job.id job) by (intro X; apply Hid; left; congruence).
  destruct (find (hasId (Job.id job)) snapshot) as [found |]; [| now apply IH].
  destruct (needsAbort found); [exact Hin |].
  apply IH; auto. simpl. now apply in_updateIn_keep.
Qed.

(** X7: with distinct ids, [cancelAll] leaves every record that is finalizing,
    completed, failed or already cancelled exactly as it is: its filter
    does not select them, and the updates of the selected jobs do not reach
    them. *)
Theorem cancelAll_leaves_settled_records (now : Z) (times : list Z) (h : Hook)
  (j : ConversionJob) :
  NoDup (ids (jobs (queue h))) ->
  List.length times
  = List.length (filter (awaitsAbort (jobs (queue h)))
                        (filter toCancel (jobs (queue h)))) ->
  In j (jobs (queue h)) ->
  Job.status j = finalizing \/ Job.status j = completed
  \/ Job.status j = failed \/ Job.status j = cancelled ->
  In j (jobs (queue (cancelAllAcknowledged now times h)))
  /\ In j (jobs (queue (step now ECancelAll h))).
Proof.
  intros Hnd Hlen Hin Hs.
  assert (Hc : toCancel j = false).
  { unfold toCancel. destruct Hs as [-> | [-> | [-> | ->]]]; reflexivity. }
  assert (Hid : ~ In (Job.id j) (ids (filter toCancel (jobs (queue h))))).
  { unfold ids. rewrite in_map_iff. intros (t & E & Ht). apply filter_In in Ht.
    destruct Ht as [Ht Hct].
    assert (t = j) by (apply (nodup_ids_inj _ _ _ Hnd Ht Hin E)). subst t.
    congruence. }
  split.
  - destruct (cancelAll_ends now times h Hlen) as [_ _ _ _ _ _ R].
    now apply (R j Hid).
  - unfold step, cancelAll. now apply cancelAllFrom_keeps.
Qed.

Lemma cancelAll_leaves_settled_witness :
  In (Job.mk "b" 0 0 0 cancelled 0 (Some cancellationError) None None (Some 4%Z) None)
     (jobs (queue (cancelAllAcknowledged 8 [9%Z; 10%Z] cancelAllRestartRun)))
  /\ In (Job.mk "b" 0 0 0 cancelled 0 (Some cancellationError) None None (Some 4%Z) None)
        (jobs (queue (step 8 ECancelAll cancelAllRestartRun))).
Proof.
  apply (cancelAll_leaves_settled_records 8 [9%Z; 10%Z] cancelAllRestartRun).
  - change (NoDup ["a"; "b"; "c"; "d"]).
    repeat constructor; simpl; intuition discriminate.
  - reflexivity.
  - right. left. reflexivity.
  - right. right. right. reflexivity.
Defined.

(** * The auto-start effect *)

Lemma autoStartRef_loopFrom (eager : bool) (now : Z) (h : Hook) :
  autoStartRef (loopFrom eager now h) = autoStartRef h.
Proof.
  destruct (find isQueued (jobs (queue h))) as [nj |] eqn:F.
  - destruct eager.
    + now rewrite (loopFrom_claims now h nj F).
    + now rewrite (loopFrom_deferred now h nj F).
  - now rewrite (loopFrom_idle eager now h F).
Qed.

Lemma autoStartRef_startQueue (eager : bool) (now : Z) (h : Hook) :
  autoStartRef (startQueue eager now h) = autoStartRef h.
Proof.
  unfold startQueue. destruct (processingRef h); [reflexivity |].
  now rewrite autoStartRef_loopFrom.
Qed.

Lemma existsb_isQueued_find (l : list ConversionJob) :
  existsb isQueued l = true <-> exists nj, find isQueued l = Some nj.
Proof.
  induction l as [| a l IH]; simpl.
  - split; [discriminate | intros (nj & H); discriminate].
  - destruct (isQueued a); simpl; [split; eauto | exact IH].
Qed.

(** What the effect does when it fires, in each case of the selection. *)
Lemma autoStartEffect_fires (eager : bool) (now : Z) (h : Hook) (nj : ConversionJob) :
  autoStartRef h = true -> processingRef h = false ->
  find isQueued (jobs (queue h)) = Some nj ->
  autoStartRef (autoStartEffect eager now h) = false
  /\ processingRef (autoStartEffect eager now h) = eager
  /\ engineCalls (autoStartEffect eager now h)
     = engineCalls h ++ (if eager then [nj] else [])
  /\ loops (autoStartEffect eager now h) = loops h ++ (if eager then [nj] else [])
  /\ statusOf (Job.id nj) (queue (autoStartEffect eager now h))
     = Some (if eager then converting else initializing).
Proof.
  intros Ha Hp F.
  assert (E : autoStartEffect eager now h
              = loopFrom eager now (setProcessing true (setAutoStart false h))).
  { unfold autoStartEffect. rewrite Ha, Hp.
    assert (Hq : existsb isQueued (jobs (queue h)) = true)
      by (apply existsb_isQueued_find; eauto).
    rewrite Hq. cbn [andb negb]. unfold startQueue.
    replace (processingRef (setAutoStart false h)) with false by (symmetry; exact Hp).
    reflexivity. }
  rewrite E.
  assert (Hid : In (Job.id nj) (ids (jobs (queue h))))
    by (apply in_map; exact (proj1 (find_isQueued_in _ _ F))).
  destruct eager.
  - rewrite (loopFrom_claims now (setProcessing true (setAutoStart false h)) nj F).
    cbn [autoStartRef processingRef engineCalls loops setProcessing setAutoStart queue].
    repeat split. now apply statusOf_convertingQueue.
  - rewrite (loopFrom_deferred now (setProcessing true (setAutoStart false h)) nj F).
    cbn [autoStartRef processingRef engineCalls loops setProcessing setAutoStart queue].
    rewrite !app_nil_r. repeat split. now apply statusOf_claimedQueue.
Qed.

(** X8: the auto-start effect either leaves the hook as it is, because no
    start was requested, or a loop holds the processing flag, or nothing is
    queued; or it consumes the request and calls [startQueue].  With an
    eager selection that call claims the first queued job, marks it
    converting and hands it to the engine; otherwise the job is left
    initializing, no engine call is made and the flag is cleared again.
    Run again, at any later time and in either case, the effect changes
    nothing: one request is acted on at most once. *)
Theorem autoStart_fires_once_per_request (eager again : bool) (now later : Z)
  (h : Hook) :
  autoStartEffect again later (autoStartEffect eager now h) = autoStartEffect eager now h
  /\ ((autoStartEffect eager now h = h
       /\ (autoStartRef h = false \/ processingRef h = true
           \/ find isQueued (jobs (queue h)) = None))
      \/ (exists nj,
            autoStartRef h = true /\ processingRef h = false
            /\ find isQueued (jobs (queue h)) = Some nj
            /\ autoStartRef (autoStartEffect eager now h) = false
            /\ processingRef (autoStartEffect eager now h) = eager
            /\ engineCalls (autoStartEffect eager now h)
               = engineCalls h ++ (if eager then [nj] else [])
            /\ loops (autoStartEffect eager now h)
               = loops h ++ (if eager then [nj] else [])
            /\ statusOf (Job.id nj) (queue (autoStartEffect eager now h))
               = Some (if eager then converting else initializing))).
Proof.
  split.
  - destruct (autoStartRef h && negb (processingRef h)
              && existsb isQueued (jobs (queue h))) eqn:C.
    + replace (autoStartEffect eager now h)
        with (startQueue eager now (setAutoStart false h))
        by (unfold autoStartEffect; now rewrite C).
      unfold autoStartEffect. rewrite autoStartRef_startQueue. reflexivity.
    + replace (autoStartEffect eager now h) with h
        by (unfold autoStartEffect; now rewrite C).
      unfold autoStartEffect. now rewrite C.
  - destruct (autoStartRef h) eqn:Ha.
    2:{ left. unfold autoStartEffect. rewrite Ha. auto. }
    destruct (processingRef h) eqn:Hp.
    { left. unfold autoStartEffect. rewrite Ha, Hp. auto. }
    destruct (find isQueued (jobs (queue h))) as [nj |] eqn:F.
    + right. exists nj.
      pose proof (autoStartEffect_fires eager now h nj Ha Hp F) as R.
      repeat split; try reflexivity; apply R.
    + left. unfold autoStartEffect.
      destruct (existsb isQueued (jobs (queue h))) eqn:Hq.
      * apply existsb_isQueued_find in Hq. destruct Hq as (nj & Hq). congruence.
      * rewrite andb_false_r. auto.
Qed.

(** X9: a start request that could not fire stays in [autoStartRef]: with
    the scheduler idle, the effect that follows a later plain [addJob] of a
    queued job consumes it and calls [startQueue], although [addJob] asks
    for no start.  The first queued job is then handed to the engine when
    the selection is eager, and left initializing without an engine call
    otherwise.  The same job submitted through [addJobs] without
    [autoStart] starts nothing, and the request is withdrawn. *)
Theorem pending_autoStart_request_fires_on_addJob (eager : bool) (now : Z) (h : Hook)
  (job : ConversionJob) :
  autoStartRef h = true -> processingRef h = false -> Job.status job = queued ->
  (exists nj,
     find isQueued (jobs (queue h) ++ [job]) = Some nj
     /\ autoStartRef (autoStartEffect eager now (addJob job h)) = false
     /\ processingRef (autoStartEffect eager now (addJob job h)) = eager
     /\ engineCalls (autoStartEffect eager now (addJob job h))
        = engineCalls h ++ (if eager then [nj] else [])
     /\ statusOf (Job.id nj) (queue (autoStartEffect eager now (addJob job h)))
        = Some (if eager then converting else initializing))
  /\ autoStartEffect eager now (addJobs [job] false h) = addJobs [job] false h
  /\ autoStartRef (addJobs [job] false h) = false
  /\ engineCalls (addJobs [job] false h) = engineCalls h.
Proof.
  intros Ha Hp Hq. split; [| split; [| split]]; try reflexivity.
  assert (Hex : exists nj, find isQueued (jobs (queue h) ++ [job]) = Some nj).
  { apply existsb_isQueued_find. rewrite existsb_app. simpl.
    unfold isQueued at 2. rewrite Hq. simpl. now rewrite orb_true_r. }
  destruct Hex as (nj & F). exists nj. split; [exact F |].
  destruct (autoStartEffect_fires eager now (addJob job h) nj Ha Hp F)
    as (A & P & E & _ & S).
  auto.
Qed.

Lemma pending_autoStart_witness :
  engineCalls (autoStartEffect true 2 (addJob (freshJob "a") (addJobs [] true initialHook)))
  = [freshJob "a"]
  /\ statusOf "a" (queue (autoStartEffect false 2
                            (addJob (freshJob "a") (addJobs [] true initialHook))))
     = Some initializing
  /\ autoStartEffect true 2 (addJobs [freshJob "a"] false (addJobs [] true initialHook))
     = addJobs [freshJob "a"] false (addJobs [] true initialHook).
Proof.
  pose proof (pending_autoStart_request_fires_on_addJob true 2
                (addJobs [] true initialHook) (freshJob "a") eq_refl eq_refl eq_refl)
    as H.
  split; [reflexivity | split; [reflexivity | exact (proj1 (proj2 H))]].
Defined.

(** * Stamps *)

Lemma stamped_HookUpdate (u : Partial) (j : ConversionJob) :
  HookUpdate u -> stamped j -> stamped (merge j u).
Proof.
  intros Hu Hj. destruct Hu; unfold stamped in *; simpl.
  - exact Hj.
  - split; discriminate.
  - split; discriminate.
  - split; [reflexivity | discriminate].
Qed.

Lemma stamped_claim (now : Z) (j : ConversionJob) :
  stamped (merge (merge j (initializingAt now)) convertingUpdate)
  /\ stamped (merge j (initializingAt now)).
Proof. unfold stamped; simpl. split; discriminate. Qed.

Lemma Forall_updateIn (P : ConversionJob -> Prop) (i : string) (u : Partial)
  (l : list ConversionJob) :
  (forall j, In j l -> P j -> P (merge j u)) -> Forall P l -> Forall P (updateIn i u l).
Proof.
  intros Hu Hl. rewrite Forall_forall in *. intros j' Hin.
  apply in_map_iff in Hin. destruct Hin as (j & <- & Hj).
  destruct (String.eqb (Job.id j) i); auto.
Qed.

Lemma step_keeps_stamps (now : Z) (e : Event) (h : Hook) :
  admits submitsQueued h e ->
  everywhere (Forall stamped) h -> everywhere (Forall stamped) (step now e h).
Proof.
  apply step_everywhere.
  - constructor.
  - intros l js Hjs Hl. apply Forall_app. split; [exact Hl |].
    unfold submitsQueued in Hjs. rewrite Forall_forall in *. intros j Hj.
    unfold stamped. now rewrite (Hjs j Hj).
  - intros f l Hl. rewrite Forall_forall in *. intros j Hj.
    apply filter_In in Hj. apply Hl. exact (proj1 Hj).
  - intros i u l Hu Hl. apply Forall_updateIn; [| exact Hl].
    intros j _. now apply stamped_HookUpdate.
  - intros t nj l _ Hl. apply Forall_updateIn; [| exact Hl].
    intros j _ _. exact (proj2 (stamped_claim t j)).
  - intros t nj l _ Hl. rewrite updateIn_twice by reflexivity.
    rewrite Forall_forall in *. intros j' Hin.
    apply in_map_iff in Hin. destruct Hin as (j & <- & Hj).
    destruct (String.eqb (Job.id j) (Job.id nj)); [| auto].
    exact (proj1 (stamped_claim t j)).
Qed.

Lemma records_carry_stamps (h : Hook) :
  reachable (admits submitsQueued) h -> everywhere (Forall stamped) h.
Proof.
  induction 1 as [| now e h _ IH Hok].
  - split; constructor.
  - now apply step_keeps_stamps.
Qed.

(** X10: in every state the hook reaches from submissions of queued jobs, and in
    every state it committed on the way, each record carries the stamps of
    its status: a completed record has its result and [completedAt], a
    failed one an error and [completedAt], a cancelled one the cancellation
    error and [completedAt], and a record in flight has [startedAt]. *)
Theorem records_carry_the_stamps_of_their_status (h : Hook) :
  reachable (admits submitsQueued) h -> everywhere (Forall stamped) h.
Proof.
  induction 1 as [| now e h _ IH Hok].
  - split; constructor.
  - apply step_keeps_stamps; assumption.
Qed.

Lemma completedHook_submits_queued : reachable (admits submitsQueued) completedHook.
Proof.
  apply (reachable_step _ 3%Z (EResolved 0 demoResult)); [| exact I].
  apply (reachable_step _ 2%Z (EStartQueue true)); [| exact I].
  apply (reachable_step _ 1%Z (EAddJob (freshJob "a"))); [constructor |].
  repeat constructor.
Defined.

Lemma records_carry_stamps_witness :
  reachable (admits submitsQueued) completedHook
  /\ everywhere (Forall stamped) completedHook.
Proof.
  split; [exact completedHook_submits_queued |].
  exact (records_carry_the_stamps_of_their_status completedHook
           completedHook_submits_queued).
Defined.

(** * Download of all completed files *)

Lemma zipSelection_is_completed (l : list ConversionJob) :
  Forall stamped l ->
  zipSelection l = filter (fun j => status_eqb (Job.status j) completed) l.
Proof.
  intro Hl. unfold zipSelection. apply filter_ext_in. intros j Hj.
  rewrite Forall_forall in Hl. specialize (Hl j Hj). unfold stamped in Hl.
  destruct (Job.status j) eqn:S; simpl; try reflexivity.
  destruct (Job.result j); [reflexivity | now destruct Hl].
Qed.

(** X11: in every state reached from submissions of queued jobs, the selection
    of [handleDownloadAllAsZip] keeps every completed job, because each has
    its result: the handler passes [completedCount] results, none of them
    null, to [downloadAsZip], and returns without calling it exactly when
    no job is completed, so the service is never called with no file. *)
Theorem download_all_takes_every_completed_job (h : Hook) :
  reachable (admits submitsQueued) h ->
  zipSelection (jobs (queue h))
  = filter (fun j => status_eqb (Job.status j) completed) (jobs (queue h))
  /\ ((completedCount (statistics h) = 0 /\ handleDownloadAllAsZip h = None)
      \/ (exists results,
            handleDownloadAllAsZip h = Some (map Some results)
            /\ List.length results = completedCount (statistics h)
            /\ results <> [])).
Proof.
  intro Hr.
  pose proof (proj1 (records_carry_stamps h Hr)) as Hst.
  pose proof (zipSelection_is_completed _ Hst) as E.
  split; [exact E |].
  unfold handleDownloadAllAsZip. rewrite E. cbn [statistics completedCount].
  unfold countStatus.
  set (done := filter (fun j => status_eqb (Job.status j) completed) (jobs (queue h))).
  assert (Hdone : Forall (fun j => exists r, Job.result j = Some r) done).
  { apply Forall_forall. intros j Hj. apply filter_In in Hj. destruct Hj as [Hj Hc].
    rewrite Forall_forall in Hst. specialize (Hst j Hj). unfold stamped in Hst.
    apply status_eqb_eq in Hc. rewrite Hc in Hst.
    destruct (Job.result j) as [r |]; [eauto | now destruct Hst]. }
  clearbody done. destruct done as [| d done]; [left; auto |]. right.
  assert (Hex : exists results, map Job.result (d :: done) = map Some results
                                /\ List.length results = List.length (d :: done)).
  { induction Hdone as [| x l (r & Hx) _ (rs & IH1 & IH2)].
    - exists []. auto.
    - exists (r :: rs). simpl. rewrite Hx, IH1, IH2. auto. }
  destruct Hex as (results & E1 & E2). exists results. simpl Nat.eqb. cbv iota.
  rewrite E1. split; [reflexivity | split; [exact E2 |]].
  intros ->. discriminate.
Qed.

Lemma download_all_witness :
  reachable (admits submitsQueued) completedHook
  /\ zipSelection (jobs (queue completedHook))
     = filter (fun j => status_eqb (Job.status j) completed)
              (jobs (queue completedHook))
  /\ handleDownloadAllAsZip completedHook = Some [Some demoResult].
Proof.
  split; [exact completedHook_submits_queued | split; [| reflexivity]].
  exact (proj1 (download_all_takes_every_completed_job completedHook
                  completedHook_submits_queued)).
Defined.

(** * Batches *)

Lemma fold_addJob (js : list ConversionJob) :
  forall h,
    jobs (queue (fold_left (fun s j => addJob j s) js h)) = jobs (queue h) ++ js
    /\ activeJob (queue (fold_left (fun s j => addJob j s) js h)) = activeJob (queue h)
    /\ maxConcurrent (queue (fold_left (fun s j => addJob j s) js h))
       = maxConcurrent (queue h)
    /\ List.length (trace (fold_left (fun s j => addJob j s) js h))
       = List.length js + List.length (trace h).
Proof.
  induction js as [| a js IH]; intro h; simpl.
  - rewrite app_nil_r. auto.
  - destruct (IH (addJob a h)) as (H1 & H2 & H3 & H4).
    rewrite H1, H2, H3, H4. simpl. rewrite <- app_assoc. simpl.
    repeat split; try reflexivity. lia.
Qed.

(** X14: [addJobs] leaves the queue that adding the jobs one by one with
    [addJob] leaves, in one commit instead of one per job; unlike [addJob],
    it also overwrites the auto-start request. *)
Theorem addJobs_is_repeated_addJob (js : list ConversionJob) (autoStart : bool)
  (h : Hook) :
  queue (addJobs js autoStart h) = queue (fold_left (fun s j => addJob j s) js h)
  /\ List.length (trace (addJobs js autoStart h)) = S (List.length (trace h))
  /\ List.length (trace (fold_left (fun s j => addJob j s) js h))
     = List.length js + List.length (trace h)
  /\ autoStartRef (addJobs js autoStart h) = autoStart
  /\ autoStartRef (fold_left (fun s j => addJob j s) js h) = autoStartRef h.
Proof.
  destruct (fold_addJob js h) as (H1 & H2 & H3 & H4).
  split; [| split; [reflexivity | split; [exact H4 | split; [reflexivity |]]]].
  - destruct (queue (fold_left (fun s j => addJob j s) js h)) as [j a m] eqn:E.
    simpl in H1, H2, H3. subst. reflexivity.
  - clear. revert h. induction js as [| a js IH]; intro h; simpl; [reflexivity |].
    now rewrite IH.
Qed.

(** * Output file names *)

Lemma noDotOrSlash_after_dot (a e : string) :
  noDotOrSlash (a ++ String "."%char e)%string = false.
Proof.
  induction a as [| c a IH]; simpl; [reflexivity |].
  rewrite IH. apply andb_false_r.
Qed.

Lemma string_length_app (a b : string) :
  String.length (a ++ b)%string = String.length a + String.length b.
Proof. induction a as [| x a IH]; simpl; [reflexivity | now rewrite IH]. Qed.

Lemma prefix_dot (s : string) :
  String.prefix "." s
  = match s with
    | EmptyString => false
    | String c _ => Ascii.eqb c "."%char
    end.
Proof.
  destruct s as [| c s]; [reflexivity |]. cbn [String.prefix].
  destruct (Ascii.ascii_dec "."%char c) as [<- | Hne].
  - now destruct s.
  - symmetry. apply Ascii.eqb_neq. congruence.
Qed.

Lemma prefix_dot_simple (e : string) :
  e <> EmptyString -> noDotOrSlash e = true -> String.prefix "." e = false.
Proof.
  intros He Hs. rewrite prefix_dot. destruct e as [| c e]; [reflexivity |].
  simpl in Hs. destruct (Ascii.eqb c "."%char); [discriminate | reflexivity].
Qed.

Lemma prefix_dot_added (e : string) : String.prefix "." ("." ++ e)%string = true.
Proof. now rewrite prefix_dot. Qed.

Lemma stripExtension_dot_tail (a e : string) :
  e <> EmptyString -> noDotOrSlash e = true ->
  stripExtension (a ++ String "."%char e)%string = a.
Proof.
  intros He Hs. induction a as [| c a IH].
  - simpl. rewrite Hs. apply String.eqb_neq in He. now rewrite He.
  - simpl. rewrite noDotOrSlash_after_dot, andb_false_r. now rewrite IH.
Qed.

Lemma stripExtension_cases (s : string) :
  stripExtension s = s
  \/ exists e, e <> EmptyString /\ noDotOrSlash e = true
               /\ s = (stripExtension s ++ String "."%char e)%string.
Proof.
  induction s as [| c s IH]; [now left |].
  simpl.
  destruct (Ascii.eqb c "."%char && negb (String.eqb s EmptyString) && noDotOrSlash s)
    eqn:C.
  - right. apply andb_true_iff in C. destruct C as [C Hs].
    apply andb_true_iff in C. destruct C as [Hc Hne].
    apply Ascii.eqb_eq in Hc. subst c. apply negb_true_iff in Hne.
    apply String.eqb_neq in Hne. exists s. auto.
  - destruct IH as [IH | (e & He & Hs & IH)].
    + left. now rewrite IH.
    + right. exists e. repeat split; auto. simpl. now rewrite <- IH.
Qed.

(** X15: [generateFilename] replaces the last extension of a name and nothing
    else: for a name [a.e] whose extension [e] is not empty and holds no dot
    and no slash, the result is [a] followed by the target extension,
    whatever dots [a] holds; the target extension gives the same name with
    and without its leading dot. *)
Theorem generateFilename_replaces_last_extension (a e target : string) :
  e <> EmptyString -> noDotOrSlash e = true -> String.prefix "." target = false ->
  generateFilename (a ++ "." ++ e)%string target = (a ++ "." ++ target)%string
  /\ generateFilename (a ++ "." ++ e)%string ("." ++ target)%string
     = (a ++ "." ++ target)%string.
Proof.
  intros He Hs Ht. unfold generateFilename. rewrite Ht.
  rewrite prefix_dot_added.
  change ("." ++ e)%string with (String "."%char e).
  rewrite (stripExtension_dot_tail a e He Hs). split; reflexivity.
Qed.

Lemma generateFilename_replaces_witness :
  generateFilename "holiday.2024.mov" "mp4" = "holiday.2024.mp4"
  /\ generateFilename "holiday.2024.mov" ".mp4" = "holiday.2024.mp4".
Proof.
  apply (generateFilename_replaces_last_extension "holiday.2024" "mov" "mp4").
  - discriminate.
  - reflexivity.
  - reflexivity.
Defined.

(** X16: what the pattern of [generateFilename] removes from a name is either
    nothing, or a suffix made of a dot and a non-empty extension without
    dot or slash; it removes nothing exactly when the name has no such
    suffix, as for names without a dot, names that end in a dot, and names
    whose last dot lies in a directory part. *)
Theorem stripExtension_removes_one_simple_suffix (s : string) :
  (stripExtension s = s
   /\ ~ exists a e, e <> EmptyString /\ noDotOrSlash e = true
                    /\ s = (a ++ "." ++ e)%string)
  \/ (exists e, e <> EmptyString /\ noDotOrSlash e = true
                /\ s = (stripExtension s ++ "." ++ e)%string).
Proof.
  destruct (stripExtension_cases s) as [E | H]; [left | right; exact H].
  split; [exact E |]. intros (a & e & He & Hs & Hse).
  change ("." ++ e)%string with (String "."%char e) in Hse.
  pose proof (stripExtension_dot_tail a e He Hs) as Ha. rewrite <- Hse, E in Ha.
  apply (f_equal String.length) in Hse. rewrite Ha, string_length_app in Hse.
  simpl in Hse. lia.
Qed.

(** X17: converting an output name again does not stack extensions: after
    [generateFilename name e] with a simple extension [e], given with or
    without its dot, a second call yields what it yields on [name]. *)
Theorem generateFilename_does_not_stack_extensions (name e target : string) :
  e <> EmptyString -> noDotOrSlash e = true ->
  generateFilename (generateFilename name e) target = generateFilename name target
  /\ generateFilename (generateFilename name ("." ++ e)%string) target
     = generateFilename name target.
Proof.
  intros He Hs.
  pose proof (prefix_dot_simple e He Hs) as Hp.
  assert (E1 : generateFilename name e = (stripExtension name ++ String "."%char e)%string).
  { unfold generateFilename. now rewrite Hp. }
  assert (E2 : generateFilename name ("." ++ e)%string
               = (stripExtension name ++ String "."%char e)%string).
  { unfold generateFilename. now rewrite prefix_dot_added. }
  rewrite E1, E2. unfold generateFilename at 1 3.
  rewrite (stripExtension_dot_tail (stripExtension name) e He Hs).
  split; reflexivity.
Qed.

Lemma generateFilename_stack_witness :
  generateFilename (generateFilename "clip.avi" "webm") "mp3"
  = generateFilename "clip.avi" "mp3"
  /\ generateFilename (generateFilename "clip.avi" ".webm") "mp3"
     = generateFilename "clip.avi" "mp3".
Proof.
  apply (generateFilename_does_not_stack_extensions "clip.avi" "webm" "mp3").
  - discriminate.
  - reflexivity.
Defined.

(** * The conversion service *)

Lemma prefix_app (sub b : string) : String.prefix sub (sub ++ b)%string = true.
Proof.
  induction sub as [| c sub IH]; simpl; [now destruct b |].
  destruct (Ascii.ascii_dec c c) as [_ | Hne]; [exact IH | contradiction].
Qed.

Lemma prefix_split (sub s : string) :
  String.prefix sub s = true -> exists b, s = (sub ++ b)%string.
Proof.
  revert s. induction sub as [| c sub IH]; intros s H.
  - exists s. reflexivity.
  - destruct s as [| d s]; [discriminate |]. cbn [String.prefix] in H.
    destruct (Ascii.ascii_dec c d) as [<- | _]; [| discriminate].
    destruct (IH s H) as (b & ->). exists b. reflexivity.
Qed.

(** [includes] is the substring test. *)
Lemma includes_spec (sub s : string) :
  includes sub s = true <-> exists a b, s = (a ++ sub ++ b)%string.
Proof.
  split.
  - induction s as [| c s IH]; cbn [includes]; intro H.
    + rewrite orb_false_r in H. destruct (prefix_split _ _ H) as (b & Hb).
      exists EmptyString, b. exact Hb.
    + apply orb_true_iff in H. destruct H as [H | H].
      * destruct (prefix_split _ _ H) as (b & Hb). exists EmptyString, b. exact Hb.
      * destruct (IH H) as (a & b & ->). exists (String c a), b. reflexivity.
  - intros (a & b & ->). induction a as [| c a IH].
    + simpl. destruct (sub ++ b)%string eqn:E; cbn [includes];
        rewrite <- E, prefix_app; reflexivity.
    + cbn [append includes]. rewrite IH. apply orb_true_r.
Qed.

Lemma convertCatch_ConversionError (t : Thrown) :
  exists type, convertCatch t = ConversionError type (messageOf t).
Proof. destruct t as [[m | ty m] |]; simpl; eauto. Qed.

(** X18: the [catch] clause of [convert] throws a [ConversionError] whatever it
    caught, with the message of what it caught; a [ConversionError] passes
    through with its type, so the clause applied to its own outcome changes
    nothing; for the rest, a message that mentions codec or format is an
    unsupported format even if it also mentions memory or allocation. *)
Theorem convertCatch_always_throws_ConversionError (t : Thrown) (a b : string) :
  (exists type, convertCatch t = ConversionError type (messageOf t))
  /\ convertCatch (ThrownError (convertCatch t)) = convertCatch t
  /\ convertCatch (ThrownError (PlainError (a ++ "format" ++ b)%string))
     = ConversionError UNSUPPORTED_FORMAT (a ++ "format" ++ b)%string
  /\ convertCatch (ThrownError (PlainError (a ++ "codec" ++ b)%string))
     = ConversionError UNSUPPORTED_FORMAT (a ++ "codec" ++ b)%string
  /\ convertCatch ThrownOther
     = ConversionError MEDIABUNNY_ERROR "Unknown conversion error".
Proof.
  split; [apply convertCatch_ConversionError |].
  split; [destruct t as [[m | ty m] |]; reflexivity |].
  assert (Hf : includes "format" (a ++ "format" ++ b)%string = true)
    by (apply includes_spec; eauto).
  assert (Hc : includes "codec" (a ++ "codec" ++ b)%string = true)
    by (apply includes_spec; eauto).
  repeat split.
  - cbn [convertCatch messageOf]. unfold classify. rewrite Hf, orb_true_r. reflexivity.
  - cbn [convertCatch messageOf]. unfold classify. rewrite Hc. reflexivity.
Qed.

Lemma convert_rejection (config : ConversionConfig) (conversion : N)
  (engine : EngineRun) (active : Conversions) (e : JsError) :
  snd (convert config conversion engine active) = inr e ->
  exists t, e = convertCatch t.
Proof.
  unfold convert.
  destruct engine as [t | t | t | [[| p] |] blob];
    destruct (getOutputFormatClass (targetFormatType config)) as [cls | err];
    cbn [snd]; intro H; try discriminate;
    match type of H with inr (convertCatch ?x) = _ => exists x; congruence end.
Qed.

(** X19: every rejection of [convert] is a [ConversionError]: the hook's [catch]
    clause receives an [Error], stores it as it is, and never falls back to
    its own [Unknown error]. *)
Theorem convert_rejects_with_ConversionError (config : ConversionConfig)
  (conversion : N) (engine : EngineRun) (active : Conversions) (e : JsError) :
  snd (convert config conversion engine active) = inr e ->
  (exists type message, e = ConversionError type message)
  /\ asError (ThrownError e) = e
  /\ asError (ThrownError e) <> asError ThrownOther.
Proof.
  intro H. destruct (convert_rejection _ _ _ _ _ H) as (t & ->).
  destruct (convertCatch_ConversionError t) as (ty & E). rewrite E.
  split; [eauto | split; [reflexivity | discriminate]].
Qed.

Lemma convert_rejects_witness :
  snd (convert (mkConfig "f1" "clip.avi" "mp4" "mp4") 1
               (ExecuteThrows (ThrownError (PlainError "out of memory"))) [])
  = inr (ConversionError OUT_OF_MEMORY "out of memory")
  /\ exists type message,
       ConversionError OUT_OF_MEMORY "out of memory" = ConversionError type message.
Proof.
  split; [reflexivity |].
  exact (proj1 (convert_rejects_with_ConversionError
                  (mkConfig "f1" "clip.avi" "mp4" "mp4") 1
                  (ExecuteThrows (ThrownError (PlainError "out of memory"))) []
                  (ConversionError OUT_OF_MEMORY "out of memory") eq_refl)).
Defined.

Lemma getOutputFormatClass_known (formatType : string) :
  (exists cls, getOutputFormatClass formatType = inl cls) <-> In formatType knownFormats.
Proof.
  unfold getOutputFormatClass, knownFormats. split.
  - intros (cls & H).
    repeat match type of H with
           | (if String.eqb ?a ?b then _ else _) = _ =>
               destruct (String.eqb a b) eqn:?E;
               [apply String.eqb_eq in E; simpl; auto 10 | clear E]
           end.
    discriminate.
  - intro H. simpl in H.
    repeat (destruct H as [<- | H]; [eexists; reflexivity |]). contradiction.
Qed.

Lemma getOutputFormatClass_unknown (formatType : string) :
  ~ In formatType knownFormats ->
  getOutputFormatClass formatType
  = inr (PlainError ("Unsupported output format: " ++ formatType)%string).
Proof.
  intro Hn. unfold getOutputFormatClass.
  repeat match goal with
         | |- (if String.eqb ?a ?b then _ else _) = _ =>
             destruct (String.eqb a b) eqn:?E;
             [apply String.eqb_eq in E; exfalso; apply Hn; rewrite E; simpl; auto 10
             | clear E]
         end.
  reflexivity.
Qed.

(** X20: a target format outside the nine that [getOutputFormatClass] knows is
    rejected before any conversion is set up: [convert] rejects with an
    unsupported-format [ConversionError] that names the format, because the
    message of the error thrown by the lookup mentions the word format, and
    [activeConversions] is left as it was. *)
Theorem convert_rejects_unknown_format (config : ConversionConfig) (conversion : N)
  (engine : EngineRun) (active : Conversions) :
  ~ In (targetFormatType config) knownFormats ->
  (forall t, engine <> InputThrows t) ->
  convert config conversion engine active
  = (active,
     inr (ConversionError UNSUPPORTED_FORMAT
            ("Unsupported output format: " ++ targetFormatType config)%string)).
Proof.
  intros Hn Hin. unfold convert.
  rewrite (getOutputFormatClass_unknown _ Hn).
  assert (Hc : convertCatch (ThrownError (PlainError
                 ("Unsupported output format: " ++ targetFormatType config)%string))
               = ConversionError UNSUPPORTED_FORMAT
                   ("Unsupported output format: " ++ targetFormatType config)%string).
  { cbn [convertCatch messageOf]. unfold classify.
    assert (Hf : includes "format"
                   ("Unsupported output format: " ++ targetFormatType config)%string
                 = true).
    { apply includes_spec. exists "Unsupported output ", (": " ++ targetFormatType config)%string.
      reflexivity. }
    rewrite Hf, orb_true_r. reflexivity. }
  destruct engine as [t | t | t | buffer blob]; [now destruct (Hin t) | | |];
    now rewrite Hc.
Qed.

Lemma convert_unknown_format_witness :
  convert (mkConfig "f1" "clip.avi" "avi" "avi") 1 (Executed (Some 9%N) 2)
          [("f0", 5%N)]
  = ([("f0", 5%N)],
     inr (ConversionError UNSUPPORTED_FORMAT "Unsupported output format: avi")).
Proof.
  apply (convert_rejects_unknown_format (mkConfig "f1" "clip.avi" "avi" "avi") 1
           (Executed (Some 9%N) 2) [("f0", 5%N)]).
  - simpl. intuition discriminate.
  - discriminate.
Defined.

Lemma mapGet_delete_same (k : string) (m : Conversions) :
  mapGet k (mapDelete k m) = None.
Proof.
  unfold mapGet, mapDelete. induction m as [| [k' v] m IH]; simpl; [reflexivity |].
  destruct (String.eqb k' k) eqn:E; simpl; [exact IH |]. now rewrite E.
Qed.

Lemma mapGet_delete_other (k other : string) (m : Conversions) :
  other <> k -> mapGet other (mapDelete k m) = mapGet other m.
Proof.
  intro Hne. unfold mapGet, mapDelete. induction m as [| [k' v] m IH]; simpl; [reflexivity |].
  destruct (String.eqb k' k) eqn:E; simpl.
  - apply String.eqb_eq in E. subst k'.
    assert (E' : String.eqb k other = false) by (apply String.eqb_neq; congruence).
    now rewrite E'.
  - destruct (String.eqb k' other); [reflexivity | exact IH].
Qed.

Lemma mapGet_set_same (k : string) (v : N) (m : Conversions) :
  mapGet k (mapSet k v m) = Some v.
Proof. unfold mapGet, mapSet. simpl. now rewrite String.eqb_refl. Qed.

Lemma mapGet_set_other (k other : string) (v : N) (m : Conversions) :
  other <> k -> mapGet other (mapSet k v m) = mapGet other m.
Proof.
  intro Hne. unfold mapSet.
  assert (E : String.eqb k other = false) by (apply String.eqb_neq; congruence).
  unfold mapGet at 1. simpl. rewrite E. now apply mapGet_delete_other.
Qed.

Lemma mapGet_cancel_same (k : string) (m : Conversions) : mapGet k (cancel k m) = None.
Proof.
  unfold cancel. destruct (mapGet k m) eqn:E; [apply mapGet_delete_same | exact E].
Qed.

Lemma mapGet_cancel_other (k other : string) (m : Conversions) :
  other <> k -> mapGet other (cancel k m) = mapGet other m.
Proof.
  intro Hne. unfold cancel. destruct (mapGet k m); [| reflexivity].
  now apply mapGet_delete_other.
Qed.

(** X21: the entry that [convert] keeps in [activeConversions] for its source
    file: it is gone when [execute] has returned, with or without output;
    it stays behind when [execute] throws, since the clean-up is on the
    success path only, until [cancel] or a later conversion of the same file
    removes it.  Entries of other files are never touched, by [convert] or
    by [cancel], and [cancel] of an id without entry changes nothing. *)
Theorem activeConversions_entry_of_a_conversion (config : ConversionConfig)
  (conversion : N) (engine : EngineRun) (active : Conversions) (other : string)
  (buffer : option N) (outputBlob : N) (t : Thrown) :
  In (targetFormatType config) knownFormats ->
  other <> sourceId config ->
  mapGet (sourceId config)
         (fst (convert config conversion (Executed buffer outputBlob) active)) = None
  /\ mapGet (sourceId config)
            (fst (convert config conversion (ExecuteThrows t) active)) = Some conversion
  /\ mapGet (sourceId config)
            (cancel (sourceId config)
                    (fst (convert config conversion (ExecuteThrows t) active))) = None
  /\ mapGet other (fst (convert config conversion engine active)) = mapGet other active
  /\ mapGet other (cancel (sourceId config) active) = mapGet other active
  /\ cancel (sourceId config) (cancel (sourceId config) active)
     = cancel (sourceId config) active.
Proof.
  intros Hk Hne. apply getOutputFormatClass_known in Hk. destruct Hk as (cls & Hk).
  unfold convert. rewrite Hk.
  split; [| split; [| split; [| split; [| split]]]].
  - destruct buffer as [[| p] |]; cbn [fst]; apply mapGet_delete_same.
  - cbn [fst]. apply mapGet_set_same.
  - cbn [fst]. apply mapGet_cancel_same.
  - destruct engine as [t' | t' | t' | [[| p] |] blob]; cbn [fst]; try reflexivity;
      rewrite ?mapGet_delete_other by exact Hne; now apply mapGet_set_other.
  - now apply mapGet_cancel_other.
  - unfold cancel at 1. now rewrite mapGet_cancel_same.
Qed.

Lemma activeConversions_entry_witness :
  mapGet "f1" (fst (convert (mkConfig "f1" "clip.avi" "mp4" "mp4") 1
                            (Executed (Some 9%N) 2) [("f1", 7%N); ("f0", 5%N)])) = None
  /\ mapGet "f1" (fst (convert (mkConfig "f1" "clip.avi" "mp4" "mp4") 1
                               (ExecuteThrows ThrownOther) [("f0", 5%N)])) = Some 1%N
  /\ mapGet "f0" (fst (convert (mkConfig "f1" "clip.avi" "mp4" "mp4") 1
                               (ExecuteThrows ThrownOther) [("f0", 5%N)])) = Some 5%N.
Proof.
  split; [| split].
  - refine (proj1 (activeConversions_entry_of_a_conversion
                     (mkConfig "f1" "clip.avi" "mp4" "mp4") 1 (ExecuteThrows ThrownOther)
                     [("f1", 7%N); ("f0", 5%N)] "f0" (Some 9%N) 2 ThrownOther _ _)).
    + simpl. auto.
    + discriminate.
  - reflexivity.
  - reflexivity.
Defined.

(** X22: [convert] resolves only when the format is known and [execute] left a
    buffer that is not empty; the result then has that positive size, no
    URL yet, the file name that [generateFilename] derives from the source
    name, and the entry of the source file is gone from
    [activeConversions]. *)
Theorem convert_resolves_only_with_output (config : ConversionConfig)
  (conversion : N) (engine : EngineRun) (active : Conversions)
  (r : ConversionResult) :
  snd (convert config conversion engine active) = inl r ->
  In (targetFormatType config) knownFormats
  /\ (exists byteLength, engine = Executed (Some byteLength) (blob r)
                         /\ size r = Z.of_N byteLength)
  /\ (0 < size r)%Z
  /\ url r = None
  /\ filename r = generateFilename (sourceName config) (targetExtension config)
  /\ mapGet (sourceId config) (fst (convert config conversion engine active)) = None.
Proof.
  unfold convert.
  destruct engine as [t | t | t | [[| p] |] outputBlob];
    destruct (getOutputFormatClass (targetFormatType config)) as [cls | err] eqn:Hk;
    cbn [snd fst]; intro H; try discriminate.
  injection H as <-. cbn [blob size url filename].
  split; [apply getOutputFormatClass_known; eauto |].
  split; [eexists; split; reflexivity |].
  split; [lia |]. split; [reflexivity |]. split; [reflexivity |].
  apply mapGet_delete_same.
Qed.

Lemma convert_resolves_witness :
  snd (convert (mkConfig "f1" "clip.avi" "mp4" ".mp4") 1 (Executed (Some 9%N) 2) [])
  = inl (mkResult 2 "clip.mp4" 9 None)
  /\ (0 < size (mkResult 2 "clip.mp4" 9 None))%Z.
Proof.
  split; [reflexivity |].
  exact (proj1 (proj2 (proj2 (convert_resolves_only_with_output
                  (mkConfig "f1" "clip.avi" "mp4" ".mp4") 1 (Executed (Some 9%N) 2) []
                  (mkResult 2 "clip.mp4" 9 None) eq_refl)))).
Defined.
